(** * Trading calculator (Binance USDT-M futures, isolated margin, taker fee)

    A shallow embedding of [src/trading_calculator.py] and the properties of
    its specification.

    Numbers.  The Python code computes on [float], and the file embeds it
    twice.  A Python function that may raise is a function into the monad
    [py]; the one fault of the arithmetic is the true division [x / y],
    which raises [ZeroDivisionError] when [y] is zero.

    - In the module [Binary64] every number is an IEEE 754 binary64 float
      with the rounding operations of the machine, as in the code.  Whether
      the code returns or raises is settled there, on the divisors as the
      code computes them.
    - In the embedding at top level every number is an exact rational ([Q]),
      compared with the decidable tests [Qle_bool] and [Qeq_bool]; the
      decimal literal [0.0004] is the rational 4/10000; rounding, overflow,
      underflow, infinities and NaN are outside it.  It is the arithmetic
      the formulas of the code are written in, and a property stated over
      it is a property of those formulas in exact arithmetic.  The
      structural-issue detector only compares its inputs with [<=]; on
      finite floats, which are rationals, it answers as it does here.

    Containers.  [take_profit_results] is the dictionary the code builds with
    [results[idx] = {...}]; it is a [gmap] from the 1-based index to a record
    with the three keys of the inner dictionary.  [issues] and [judgments]
    are the lists the code appends to and joins with [" / "].

    Presentation.  Of [src/app.py] the file embeds the three formatters, the
    results table and the alert message.  Python's built-in number
    formatting is a parameter of that part; the Streamlit form is not
    embedded. *)

From Stdlib Require Import QArith Qfield Lqa.
From Stdlib Require Floats.
From stdpp Require Import base option list strings pretty gmap sorting.

Local Open Scope Q_scope.

(** ** Python results: a value, or a raised exception *)

Inductive exn : Type := ZeroDivisionError.

Inductive py (A : Type) : Type :=
| Return (a : A)
| Raise (e : exn).
Arguments Return {A} a.
Arguments Raise {A} e.

#[global] Instance py_ret : MRet py := fun A a => Return a.
#[global] Instance py_bind : MBind py := fun A B f m =>
  match m with
  | Return a => f a
  | Raise e => Raise e
  end.

(** [x / y] in exact arithmetic: it raises on a divisor that is zero as a
    rational number and is otherwise the exact quotient.  The division of
    the code on floats, which tests the rounded divisor and rounds the
    quotient, is [Binary64.truediv]. *)
Definition truediv (x y : Q) : py Q :=
  if Qeq_bool y 0 then Raise ZeroDivisionError else Return (x / y).

(** [x < y]; [x <= y] is [Qle_bool x y], and [x > y], [x >= y] swap the
    arguments. *)
Definition Qlt_bool (x y : Q) : bool := negb (Qle_bool y x).

(** ** Constants *)

Definition TAKER_FEE_RATE : Q := 4 # 10000.
Definition MIN_LEVERAGE : Q := 3.
Definition MAX_LEVERAGE : Q := 150.
Definition PREFERRED_LEVERAGE_RANGE : Q * Q := (3, 150).

(** ** Data model *)

Inductive Direction : Type := LONG | SHORT.

Record TradingInputs : Type := {
  total_asset : Q;
  risk_ratio : Q;
  direction : Direction;
  entry_price : Q;
  stop_loss : Q;
  take_profits : list Q;
  margin_usage_ratio : Q
}.

(** The inner dictionary [{"rr_ratio": _, "actual_rr": _, "profit": _}]. *)
Record TakeProfitResult : Type := {
  rr_ratio : Q;
  actual_rr : Q;
  profit : Q
}.

Record TradingResults : Type := {
  stop_loss_pct : Q;
  stop_loss_price : Q;
  actual_loss_amount : Q;
  position_notional : Q;
  position_quantity : Q;
  position_leverage : Q;
  effective_leverage : Q;
  take_profit_results : gmap nat TakeProfitResult;
  structural_issue : string;
  required_margin : Q;
  overall_judgment : string;
  actual_entry_notional : Q;
  actual_entry_quantity : Q;
  actual_entry_leverage : Q
}.

(** ** The calculation steps *)

(** The divisor [100] is a nonzero literal: this division cannot raise. *)
Definition calculate_risk_amount (total_asset risk_ratio : Q) : Q :=
  total_asset * (risk_ratio / 100).

Definition calculate_stop_loss
    (direction : Direction) (entry_price stop_loss : Q) : py (Q * Q) :=
  match direction with
  | LONG =>
      q ← truediv (entry_price - stop_loss) entry_price;
      mret (q * 100, stop_loss)
  | SHORT =>
      q ← truediv (stop_loss - entry_price) entry_price;
      mret (q * 100, stop_loss)
  end.

Definition calculate_position_size
    (direction : Direction) (entry_price stop_loss risk_amount : Q)
    : py (Q * Q) :=
  let price_diff :=
    match direction with
    | LONG => entry_price - stop_loss
    | SHORT => stop_loss - entry_price
    end in
  let fee_per_unit := (entry_price + stop_loss) * TAKER_FEE_RATE in
  quantity ← truediv risk_amount (price_diff + fee_per_unit);
  let notional := entry_price * quantity in
  mret (notional, quantity).

Definition calculate_actual_loss
    (direction : Direction) (entry_price stop_loss notional quantity : Q)
    : Q :=
  let price_loss :=
    match direction with
    | LONG => (entry_price - stop_loss) * quantity
    | SHORT => (stop_loss - entry_price) * quantity
    end in
  let entry_fee := notional * TAKER_FEE_RATE in
  let exit_fee := stop_loss * quantity * TAKER_FEE_RATE in
  price_loss + entry_fee + exit_fee.

(** [risk_amount] is a parameter the body never reads, as in the source. *)
Definition calculate_leverage
    (position_notional risk_amount total_asset margin_usage_ratio : Q)
    : py (Q * Q * Q) :=
  let min_margin := total_asset * (margin_usage_ratio / 100) in
  ratio ← truediv position_notional min_margin;
  leverage ←
    (if Qle_bool ratio MAX_LEVERAGE then
       leverage ← truediv position_notional min_margin;
       mret (if Qlt_bool leverage MIN_LEVERAGE then MIN_LEVERAGE else leverage)
     else mret MAX_LEVERAGE);
  required_margin ← truediv position_notional leverage;
  effective_leverage ← truediv position_notional total_asset;
  mret (leverage, effective_leverage, required_margin).

(** The body of [for idx, take_profit in enumerate(take_profits, start=1)]:
    [idx] is the index of the head of [take_profits], [results] the
    dictionary built so far.  The values computed before the loop are the
    section's variables. *)
Section rr_loop.
Variables (direction : Direction) (entry_price stop_loss_pct : Q).
Variables (quantity entry_fee actual_loss_with_fee : Q).

Fixpoint rr_loop (idx : nat) (take_profits : list Q)
    (results : gmap nat TakeProfitResult) : py (gmap nat TakeProfitResult) :=
  match take_profits with
  | [] => mret results
  | take_profit :: rest =>
      profit_pct ←
        match direction with
        | LONG =>
            q ← truediv (take_profit - entry_price) entry_price;
            mret (q * 100)
        | SHORT =>
            q ← truediv (entry_price - take_profit) entry_price;
            mret (q * 100)
        end;
      rr_ratio ←
        (if Qlt_bool 0 stop_loss_pct
         then truediv profit_pct stop_loss_pct else mret 0);
      let gross_profit :=
        match direction with
        | LONG => (take_profit - entry_price) * quantity
        | SHORT => (entry_price - take_profit) * quantity
        end in
      let tp_exit_fee := take_profit * quantity * TAKER_FEE_RATE in
      let net_profit := gross_profit - entry_fee - tp_exit_fee in
      actual_rr ←
        (if Qlt_bool 0 actual_loss_with_fee
         then truediv net_profit actual_loss_with_fee else mret 0);
      rr_loop (S idx) rest
        (<[idx := {| rr_ratio := rr_ratio;
                     actual_rr := actual_rr;
                     profit := net_profit |}]> results)
  end.
End rr_loop.

Definition calculate_rr_and_profit
    (direction : Direction) (entry_price stop_loss : Q)
    (take_profits : list Q) (notional quantity stop_loss_pct : Q)
    : py (gmap nat TakeProfitResult) :=
  let entry_fee := notional * TAKER_FEE_RATE in
  let sl_exit_fee := stop_loss * quantity * TAKER_FEE_RATE in
  let price_loss :=
    match direction with
    | LONG => (entry_price - stop_loss) * quantity
    | SHORT => (stop_loss - entry_price) * quantity
    end in
  let actual_loss_with_fee := price_loss + entry_fee + sl_exit_fee in
  rr_loop direction entry_price stop_loss_pct quantity entry_fee
    actual_loss_with_fee 1%nat take_profits ∅.

(** *** Structural issues *)

Definition NO_ISSUE : string := "문제 없음".

Definition sl_above_entry : string :=
  "스탑로스가 진입가보다 높거나 같음".
Definition sl_below_entry : string :=
  "스탑로스가 진입가보다 낮거나 같음".

(** The four f-strings; [pretty idx] is the decimal rendering [{idx}]. *)
Definition tp_below_entry (idx : nat) : string :=
  pretty idx +:+ "차 익절이 진입가보다 낮거나 같음".
Definition tp_below_prev (idx : nat) : string :=
  pretty idx +:+ "차 익절이 이전 익절가보다 낮거나 같음".
Definition tp_above_entry (idx : nat) : string :=
  pretty idx +:+ "차 익절이 진입가보다 높거나 같음".
Definition tp_above_prev (idx : nat) : string :=
  pretty idx +:+ "차 익절이 이전 익절가보다 높거나 같음".

(** [issues.append(msg)] under [if cond:]. *)
Definition append_if (cond : bool) (msg : string) (issues : list string)
    : list string :=
  if cond then issues ++ [msg] else issues.

(** The two target loops, threading [prev_tp], [idx] and [issues]. *)
Fixpoint long_targets (entry_price prev_tp : Q) (idx : nat)
    (take_profits : list Q) (issues : list string) : list string :=
  match take_profits with
  | [] => issues
  | take_profit :: rest =>
      let issues :=
        append_if (Qle_bool take_profit entry_price)
          (tp_below_entry idx) issues in
      let issues :=
        append_if (Qle_bool take_profit prev_tp)
          (tp_below_prev idx) issues in
      long_targets entry_price take_profit (S idx) rest issues
  end.

Fixpoint short_targets (entry_price prev_tp : Q) (idx : nat)
    (take_profits : list Q) (issues : list string) : list string :=
  match take_profits with
  | [] => issues
  | take_profit :: rest =>
      let issues :=
        append_if (Qle_bool entry_price take_profit)
          (tp_above_entry idx) issues in
      let issues :=
        append_if (Qle_bool prev_tp take_profit)
          (tp_above_prev idx) issues in
      short_targets entry_price take_profit (S idx) rest issues
  end.

(** The list [issues] as it stands when the function reaches
    [if not issues]. *)
Definition structural_issues
    (direction : Direction) (entry_price stop_loss : Q)
    (take_profits : list Q) : list string :=
  match direction with
  | LONG =>
      let issues :=
        append_if (Qle_bool entry_price stop_loss) sl_above_entry [] in
      long_targets entry_price entry_price 1%nat take_profits issues
  | SHORT =>
      let issues :=
        append_if (Qle_bool stop_loss entry_price) sl_below_entry [] in
      short_targets entry_price entry_price 1%nat take_profits issues
  end.

(** [sep.join(l)]. *)
Fixpoint join (sep : string) (l : list string) : string :=
  match l with
  | [] => ""
  | [s] => s
  | s :: rest => s +:+ sep +:+ join sep rest
  end.

Definition check_structural_issues
    (direction : Direction) (entry_price stop_loss : Q)
    (take_profits : list Q) : string :=
  let issues := structural_issues direction entry_price stop_loss
                  take_profits in
  match issues with
  | [] => NO_ISSUE
  | _ => join " / " issues
  end.

(** *** Overall judgment *)

Definition SL_ADJUST : string := "SL 조정 필요".
Definition SIZE_ADJUST : string := "사이즈 조정 필요".

(** The condition of the [elif] of [judge_overall]; the branch is entered
    when this holds and [leverage > MAX_LEVERAGE] does not. *)
Definition below_min_tight_stop (leverage stop_loss_pct : Q) : bool :=
  Qlt_bool leverage MIN_LEVERAGE && Qlt_bool stop_loss_pct 1.

Definition judge_overall
    (leverage stop_loss_pct : Q) (structural_issue : string) : string :=
  let judgments := [] in
  let judgments :=
    append_if (negb (String.eqb structural_issue NO_ISSUE))
      SL_ADJUST judgments in
  let judgments :=
    if Qlt_bool MAX_LEVERAGE leverage then judgments ++ [SIZE_ADJUST]
    else if below_min_tight_stop leverage stop_loss_pct
         then judgments ++ [SIZE_ADJUST]
         else judgments in
  let judgments :=
    append_if (Qlt_bool 5 stop_loss_pct) SL_ADJUST judgments in
  match judgments with
  | [] => NO_ISSUE
  | _ => join " / " judgments
  end.

(** *** The main function *)

Definition calculate_trading_results (inputs : TradingInputs)
    : py TradingResults :=
  let risk_amount :=
    calculate_risk_amount (total_asset inputs) (risk_ratio inputs) in
  '(stop_loss_pct, stop_loss_price) ←
    calculate_stop_loss (direction inputs) (entry_price inputs)
      (stop_loss inputs);
  '(position_notional, position_quantity) ←
    calculate_position_size (direction inputs) (entry_price inputs)
      (stop_loss inputs) risk_amount;
  let actual_loss :=
    calculate_actual_loss (direction inputs) (entry_price inputs)
      (stop_loss inputs) position_notional position_quantity in
  '(position_leverage, effective_leverage, required_margin) ←
    calculate_leverage position_notional risk_amount (total_asset inputs)
      (margin_usage_ratio inputs);
  take_profit_results ←
    calculate_rr_and_profit (direction inputs) (entry_price inputs)
      (stop_loss inputs) (take_profits inputs) position_notional
      position_quantity stop_loss_pct;
  let structural_issue :=
    check_structural_issues (direction inputs) (entry_price inputs)
      (stop_loss inputs) (take_profits inputs) in
  let overall_judgment :=
    judge_overall position_leverage stop_loss_pct structural_issue in
  let actual_entry_notional := position_notional in
  let actual_entry_quantity := position_quantity in
  let actual_entry_leverage := position_leverage in
  mret {| stop_loss_pct := stop_loss_pct;
          stop_loss_price := stop_loss_price;
          actual_loss_amount := actual_loss;
          position_notional := position_notional;
          position_quantity := position_quantity;
          position_leverage := position_leverage;
          effective_leverage := effective_leverage;
          take_profit_results := take_profit_results;
          structural_issue := structural_issue;
          required_margin := required_margin;
          overall_judgment := overall_judgment;
          actual_entry_notional := actual_entry_notional;
          actual_entry_quantity := actual_entry_quantity;
          actual_entry_leverage := actual_entry_leverage |}.

(** ** Presentation ([src/app.py]) *)

Section presentation.
(** Python's built-in formatting of a number: [format_f d x] stands for
    [f"{x:.{d}f}"] and [format_grouped_f d x] for [f"{x:,.{d}f}"].  Both
    belong to the language, not to the repository. *)
Variables (format_f format_grouped_f : nat -> Q -> string).

Definition format_currency (value : Q) : string :=
  "$" +:+ format_grouped_f 2 value.

Definition format_percent (value : Q) : string :=
  format_f 2 value +:+ "%".

Definition format_number (value : Q) (decimals : nat) : string :=
  format_grouped_f decimals value.

(** [sorted(results.take_profit_results.keys())]. *)
Definition sorted_keys (take_profit_results : gmap nat TakeProfitResult)
    : list nat :=
  merge_sort (≤)%nat (elements (dom take_profit_results)).

(** The rows before the targets. *)
Definition leading_items : list string :=
  [ "1. 손절 폭 (%)";
    "1. 손절가";
    "1. 실제 손실 금액";
    "2. 적정 포지션 크기 (Notional)";
    "2. 적정 포지션 수량";
    "3. 포지션 사용 레버리지";
    "3. 실질 레버리지" ].

Definition leading_values (results : TradingResults) : list string :=
  [ format_percent (stop_loss_pct results);
    format_currency (stop_loss_price results);
    format_currency (actual_loss_amount results);
    format_currency (position_notional results);
    format_number (position_quantity results) 6;
    format_f 2 (position_leverage results) +:+ "x";
    format_f 2 (effective_leverage results) +:+ "x" ].

(** The three rows of one target. *)
Definition target_items (tp_num : nat) : list string :=
  [ "4. " +:+ pretty tp_num +:+ "차 손익비 (R/R)";
    "4. 실제 " +:+ pretty tp_num +:+ "차 손익비";
    "4. " +:+ pretty tp_num +:+ "차 익절 시 순이익" ].

Definition target_values (tp_result : TakeProfitResult) : list string :=
  [ format_f 2 (rr_ratio tp_result);
    format_f 2 (actual_rr tp_result);
    format_currency (profit tp_result) ].

(** The rows after the targets. *)
Definition trailing_items : list string :=
  [ "5. 구조적 문제 여부";
    "6. 필요 Margin";
    "7. 종합 판정";
    "8. 실제 진입 Notional";
    "8. 실제 진입 수량";
    "8. 실제 진입 레버리지" ].

Definition trailing_values (results : TradingResults) : list string :=
  [ structural_issue results;
    format_currency (required_margin results);
    overall_judgment results;
    format_currency (actual_entry_notional results);
    format_number (actual_entry_quantity results) 6;
    format_f 2 (actual_entry_leverage results) +:+ "x" ].

(** The loop [for tp_num in sorted(...)]: [keys] are the keys still to
    visit.  [None] is the [KeyError] of
    [results.take_profit_results[tp_num]]. *)
Fixpoint table_target_rows
    (take_profit_results : gmap nat TakeProfitResult) (keys : list nat)
    (items values : list string) : option (list string * list string) :=
  match keys with
  | [] => Some (items, values)
  | tp_num :: rest =>
      tp_result ← take_profit_results !! tp_num;
      table_target_rows take_profit_results rest
        (items ++ target_items tp_num)
        (values ++ target_values tp_result)
  end.

(** The result is the pair of columns handed to [pd.DataFrame], the item
    column first; [inputs] is a parameter the body never reads, as in the
    source. *)
Definition create_results_table (results : TradingResults)
    (inputs : TradingInputs) : option (list string * list string) :=
  let items := leading_items in
  let values := leading_values results in
  '(items, values) ←
    table_target_rows (take_profit_results results)
      (sorted_keys (take_profit_results results)) items values;
  let items := items ++ trailing_items in
  let values := values ++ trailing_values results in
  Some (items, values).

(** The line feed of the message. *)
Definition LF : string := String (Ascii.ascii_of_nat 10) "".

(** [tp_lines], built by the loop over [enumerate(take_profits, start=1)]. *)
Fixpoint alert_tp_lines (idx : nat) (take_profits : list Q)
    (tp_lines : list string) : list string :=
  match take_profits with
  | [] => tp_lines
  | tp :: rest =>
      alert_tp_lines (S idx) rest
        (tp_lines ++ ["• TP" +:+ pretty idx +:+ " : " +:+ format_f 2 tp])
  end.

Definition generate_alert_message (results : TradingResults)
    (inputs : TradingInputs) : string :=
  let direction_symbol :=
    match direction inputs with
    | LONG => "📈 LONG"
    | SHORT => "📉 SHORT"
    end in
  let tp_lines := alert_tp_lines 1 (take_profits inputs) [] in
  let tp_section := join LF tp_lines in
  direction_symbol +:+ " SETUP" +:+ LF
  +:+ "• Entry : " +:+ format_f 2 (entry_price inputs) +:+ LF
  +:+ "• Margin : " +:+ format_f 2 (required_margin results) +:+ LF
  +:+ tp_section +:+ LF
  +:+ "• SL : " +:+ format_f 2 (stop_loss inputs) +:+ LF
  +:+ "• Leverage : " +:+ format_f 2 (actual_entry_leverage results)
  +:+ "x".
End presentation.

(** ** The calculation over binary64

    The same functions, written over Python's [float]: IEEE 754 binary64
    with round-to-nearest operations, [<=] and [<] false on NaN, and a true
    division that raises when the divisor compares equal to zero (either
    zero) and otherwise yields the rounded quotient, infinities and NaN
    included.  The integer literals of the source ([100], [3], [150], [0])
    are the floats of the same value.  Messages, [append_if] and [join] are
    those above. *)
Module Binary64.
Import Floats.
Local Open Scope float_scope.
#[local] Set Warnings "-inexact-float".

Definition truediv (x y : float) : py float :=
  if y =? 0 then Raise ZeroDivisionError else Return (x / y).

Definition TAKER_FEE_RATE : float := 0.0004.
Definition MIN_LEVERAGE : float := 3.
Definition MAX_LEVERAGE : float := 150.

Record TradingInputs : Type := {
  total_asset : float;
  risk_ratio : float;
  direction : Direction;
  entry_price : float;
  stop_loss : float;
  take_profits : list float;
  margin_usage_ratio : float
}.

Record TakeProfitResult : Type := {
  rr_ratio : float;
  actual_rr : float;
  profit : float
}.

Record TradingResults : Type := {
  stop_loss_pct : float;
  stop_loss_price : float;
  actual_loss_amount : float;
  position_notional : float;
  position_quantity : float;
  position_leverage : float;
  effective_leverage : float;
  take_profit_results : gmap nat TakeProfitResult;
  structural_issue : string;
  required_margin : float;
  overall_judgment : string;
  actual_entry_notional : float;
  actual_entry_quantity : float;
  actual_entry_leverage : float
}.

Definition calculate_risk_amount (total_asset risk_ratio : float) : float :=
  total_asset * (risk_ratio / 100).

Definition calculate_stop_loss
    (direction : Direction) (entry_price stop_loss : float)
    : py (float * float) :=
  match direction with
  | LONG =>
      q ← truediv (entry_price - stop_loss) entry_price;
      mret (q * 100, stop_loss)
  | SHORT =>
      q ← truediv (stop_loss - entry_price) entry_price;
      mret (q * 100, stop_loss)
  end.

Definition calculate_position_size
    (direction : Direction) (entry_price stop_loss risk_amount : float)
    : py (float * float) :=
  let price_diff :=
    match direction with
    | LONG => entry_price - stop_loss
    | SHORT => stop_loss - entry_price
    end in
  let fee_per_unit := (entry_price + stop_loss) * TAKER_FEE_RATE in
  quantity ← truediv risk_amount (price_diff + fee_per_unit);
  let notional := entry_price * quantity in
  mret (notional, quantity).

Definition calculate_actual_loss
    (direction : Direction)
    (entry_price stop_loss notional quantity : float) : float :=
  let price_loss :=
    match direction with
    | LONG => (entry_price - stop_loss) * quantity
    | SHORT => (stop_loss - entry_price) * quantity
    end in
  let entry_fee := notional * TAKER_FEE_RATE in
  let exit_fee := stop_loss * quantity * TAKER_FEE_RATE in
  price_loss + entry_fee + exit_fee.

Definition calculate_leverage
    (position_notional risk_amount total_asset margin_usage_ratio : float)
    : py (float * float * float) :=
  let min_margin := total_asset * (margin_usage_ratio / 100) in
  ratio ← truediv position_notional min_margin;
  leverage ←
    (if ratio <=? MAX_LEVERAGE then
       leverage ← truediv position_notional min_margin;
       mret (if leverage <? MIN_LEVERAGE then MIN_LEVERAGE else leverage)
     else mret MAX_LEVERAGE);
  required_margin ← truediv position_notional leverage;
  effective_leverage ← truediv position_notional total_asset;
  mret (leverage, effective_leverage, required_margin).

Section rr_loop.
Variables (direction : Direction) (entry_price stop_loss_pct : float).
Variables (quantity entry_fee actual_loss_with_fee : float).

Fixpoint rr_loop (idx : nat) (take_profits : list float)
    (results : gmap nat TakeProfitResult) : py (gmap nat TakeProfitResult) :=
  match take_profits with
  | [] => mret results
  | take_profit :: rest =>
      profit_pct ←
        match direction with
        | LONG =>
            q ← truediv (take_profit - entry_price) entry_price;
            mret (q * 100)
        | SHORT =>
            q ← truediv (entry_price - take_profit) entry_price;
            mret (q * 100)
        end;
      rr_ratio ←
        (if 0 <? stop_loss_pct
         then truediv profit_pct stop_loss_pct else mret 0);
      let gross_profit :=
        match direction with
        | LONG => (take_profit - entry_price) * quantity
        | SHORT => (entry_price - take_profit) * quantity
        end in
      let tp_exit_fee := take_profit * quantity * TAKER_FEE_RATE in
      let net_profit := gross_profit - entry_fee - tp_exit_fee in
      actual_rr ←
        (if 0 <? actual_loss_with_fee
         then truediv net_profit actual_loss_with_fee else mret 0);
      rr_loop (S idx) rest
        (<[idx := {| rr_ratio := rr_ratio;
                     actual_rr := actual_rr;
                     profit := net_profit |}]> results)
  end.
End rr_loop.

Definition calculate_rr_and_profit
    (direction : Direction) (entry_price stop_loss : float)
    (take_profits : list float) (notional quantity stop_loss_pct : float)
    : py (gmap nat TakeProfitResult) :=
  let entry_fee := notional * TAKER_FEE_RATE in
  let sl_exit_fee := stop_loss * quantity * TAKER_FEE_RATE in
  let price_loss :=
    match direction with
    | LONG => (entry_price - stop_loss) * quantity
    | SHORT => (stop_loss - entry_price) * quantity
    end in
  let actual_loss_with_fee := price_loss + entry_fee + sl_exit_fee in
  rr_loop direction entry_price stop_loss_pct quantity entry_fee
    actual_loss_with_fee 1%nat take_profits ∅.

Fixpoint long_targets (entry_price prev_tp : float) (idx : nat)
    (take_profits : list float) (issues : list string) : list string :=
  match take_profits with
  | [] => issues
  | take_profit :: rest =>
      let issues :=
        append_if (take_profit <=? entry_price)
          (tp_below_entry idx) issues in
      let issues :=
        append_if (take_profit <=? prev_tp) (tp_below_prev idx) issues in
      long_targets entry_price take_profit (S idx) rest issues
  end.

Fixpoint short_targets (entry_price prev_tp : float) (idx : nat)
    (take_profits : list float) (issues : list string) : list string :=
  match take_profits with
  | [] => issues
  | take_profit :: rest =>
      let issues :=
        append_if (entry_price <=? take_profit)
          (tp_above_entry idx) issues in
      let issues :=
        append_if (prev_tp <=? take_profit) (tp_above_prev idx) issues in
      short_targets entry_price take_profit (S idx) rest issues
  end.

Definition structural_issues
    (direction : Direction) (entry_price stop_loss : float)
    (take_profits : list float) : list string :=
  match direction with
  | LONG =>
      let issues :=
        append_if (entry_price <=? stop_loss) sl_above_entry [] in
      long_targets entry_price entry_price 1%nat take_profits issues
  | SHORT =>
      let issues :=
        append_if (stop_loss <=? entry_price) sl_below_entry [] in
      short_targets entry_price entry_price 1%nat take_profits issues
  end.

Definition check_structural_issues
    (direction : Direction) (entry_price stop_loss : float)
    (take_profits : list float) : string :=
  let issues := structural_issues direction entry_price stop_loss
                  take_profits in
  match issues with
  | [] => NO_ISSUE
  | _ => join " / " issues
  end.

Definition judge_overall
    (leverage stop_loss_pct : float) (structural_issue : string) : string :=
  let judgments := [] in
  let judgments :=
    append_if (negb (String.eqb structural_issue NO_ISSUE))
      SL_ADJUST judgments in
  let judgments :=
    if MAX_LEVERAGE <? leverage then judgments ++ [SIZE_ADJUST]
    else if (leverage <? MIN_LEVERAGE) && (stop_loss_pct <? 1)
         then judgments ++ [SIZE_ADJUST]
         else judgments in
  let judgments :=
    append_if (5 <? stop_loss_pct) SL_ADJUST judgments in
  match judgments with
  | [] => NO_ISSUE
  | _ => join " / " judgments
  end.

Definition calculate_trading_results (inputs : TradingInputs)
    : py TradingResults :=
  let risk_amount :=
    calculate_risk_amount (total_asset inputs) (risk_ratio inputs) in
  '(stop_loss_pct, stop_loss_price) ←
    calculate_stop_loss (direction inputs) (entry_price inputs)
      (stop_loss inputs);
  '(position_notional, position_quantity) ←
    calculate_position_size (direction inputs) (entry_price inputs)
      (stop_loss inputs) risk_amount;
  let actual_loss :=
    calculate_actual_loss (direction inputs) (entry_price inputs)
      (stop_loss inputs) position_notional position_quantity in
  '(position_leverage, effective_leverage, required_margin) ←
    calculate_leverage position_notional risk_amount (total_asset inputs)
      (margin_usage_ratio inputs);
  take_profit_results ←
    calculate_rr_and_profit (direction inputs) (entry_price inputs)
      (stop_loss inputs) (take_profits inputs) position_notional
      position_quantity stop_loss_pct;
  let structural_issue :=
    check_structural_issues (direction inputs) (entry_price inputs)
      (stop_loss inputs) (take_profits inputs) in
  let overall_judgment :=
    judge_overall position_leverage stop_loss_pct structural_issue in
  let actual_entry_notional := position_notional in
  let actual_entry_quantity := position_quantity in
  let actual_entry_leverage := position_leverage in
  mret {| stop_loss_pct := stop_loss_pct;
          stop_loss_price := stop_loss_price;
          actual_loss_amount := actual_loss;
          position_notional := position_notional;
          position_quantity := position_quantity;
          position_leverage := position_leverage;
          effective_leverage := effective_leverage;
          take_profit_results := take_profit_results;
          structural_issue := structural_issue;
          required_margin := required_margin;
          overall_judgment := overall_judgment;
          actual_entry_notional := actual_entry_notional;
          actual_entry_quantity := actual_entry_quantity;
          actual_entry_leverage := actual_entry_leverage |}.

(** The divisors an input can make zero, each as the code computes it. *)
Definition sizing_denominator (inputs : TradingInputs) : float :=
  match direction inputs with
  | LONG => entry_price inputs - stop_loss inputs
  | SHORT => stop_loss inputs - entry_price inputs
  end + (entry_price inputs + stop_loss inputs) * TAKER_FEE_RATE.

Definition min_margin (inputs : TradingInputs) : float :=
  total_asset inputs * (margin_usage_ratio inputs / 100).

Definition divisors_nonzero (inputs : TradingInputs) : bool :=
  negb (entry_price inputs =? 0)
  && negb (sizing_denominator inputs =? 0)
  && negb (min_margin inputs =? 0)
  && negb (total_asset inputs =? 0).

(** The example scenario of the specification. *)
Definition example_inputs : TradingInputs :=
  {| total_asset := 10000; risk_ratio := 5; direction := LONG;
     entry_price := 50000; stop_loss := 49000;
     take_profits := [51000; 52000]; margin_usage_ratio := 60 |}.

(** No target. *)
Definition no_target_inputs : TradingInputs :=
  {| total_asset := 10000; risk_ratio := 5; direction := LONG;
     entry_price := 50000; stop_loss := 49000;
     take_profits := []; margin_usage_ratio := 60 |}.

(** A stop whose sizing denominator is not zero as a real number and rounds
    to zero. *)
Definition rounding_stop_inputs : TradingInputs :=
  {| total_asset := 10000; risk_ratio := 5; direction := LONG;
     entry_price := 349; stop_loss := 349.27931172468988;
     take_profits := [360]; margin_usage_ratio := 60 |}.

(** A stop whose sizing denominator is zero on the decimals written and a
    tiny negative number once they are rounded. *)
Definition cancelling_stop_inputs : TradingInputs :=
  {| total_asset := 10000; risk_ratio := 5; direction := LONG;
     entry_price := 99.96; stop_loss := 100.04;
     take_profits := [110]; margin_usage_ratio := 60 |}.

(** The smallest positive account: [min_margin] underflows to zero. *)
Definition tiny_asset_inputs : TradingInputs :=
  {| total_asset := 0x1p-1074; risk_ratio := 5; direction := LONG;
     entry_price := 50000; stop_loss := 49000;
     take_profits := [51000]; margin_usage_ratio := 40 |}.

(** No margin may be used: [min_margin] is zero. *)
Definition zero_margin_inputs : TradingInputs :=
  {| total_asset := 10000; risk_ratio := 5; direction := LONG;
     entry_price := 50000; stop_loss := 49000;
     take_profits := [51000; 52000]; margin_usage_ratio := 0 |}.

(** No target and no total asset. *)
Definition no_target_no_asset_inputs : TradingInputs :=
  {| total_asset := 0; risk_ratio := 5; direction := LONG;
     entry_price := 50000; stop_loss := 49000;
     take_profits := []; margin_usage_ratio := 60 |}.
End Binary64.

(** ** Vocabulary of the properties *)

(** The divisors of the pipeline that an input can make zero, in exact
    arithmetic: the entry price (stop-loss and profit percentages), the
    sizing denominator [price_diff + fee_per_unit], [min_margin], and the
    total asset (effective leverage).  The last divisor, the clamped
    leverage, is never zero.  The divisors as the code computes them are
    [Binary64.sizing_denominator] and [Binary64.min_margin]. *)
Definition sizing_denominator (inputs : TradingInputs) : Q :=
  match direction inputs with
  | LONG => entry_price inputs - stop_loss inputs
  | SHORT => stop_loss inputs - entry_price inputs
  end + (entry_price inputs + stop_loss inputs) * TAKER_FEE_RATE.

Definition min_margin (inputs : TradingInputs) : Q :=
  total_asset inputs * (margin_usage_ratio inputs / 100).

Definition divisors_nonzero (inputs : TradingInputs) : bool :=
  negb (Qeq_bool (entry_price inputs) 0)
  && negb (Qeq_bool (sizing_denominator inputs) 0)
  && negb (Qeq_bool (min_margin inputs) 0)
  && negb (Qeq_bool (total_asset inputs) 0).

(** What holds of every entry the per-target loop writes, given the two
    values that guard its divisions. *)
Definition entry_guarded (stop_loss_pct actual_loss_with_fee : Q)
    (e : TakeProfitResult) : Prop :=
  (stop_loss_pct <= 0 -> rr_ratio e = 0)
  /\ (actual_loss_with_fee <= 0 -> actual_rr e = 0)
  /\ (0 < actual_loss_with_fee ->
      actual_rr e = profit e / actual_loss_with_fee).

(** [m] occurs in [s] as a substring. *)
Definition occurs_in (m s : string) : Prop :=
  exists before after : string, s = before +:+ m +:+ after.

(** The price a target is compared with: the value of [prev_tp] when the
    loop reaches the target at position [i] (from 0) of [take_profits],
    having started from [start]. *)
Definition previous_price (start : Q) (take_profits : list Q) (i : nat)
    : option Q :=
  match i with
  | O => Some start
  | S j => take_profits !! j
  end.

(** ** Inputs *)

(** The example scenario of the specification. *)
Definition example_inputs : TradingInputs :=
  {| total_asset := 10000; risk_ratio := 5; direction := LONG;
     entry_price := 50000; stop_loss := 49000;
     take_profits := [51000; 52000]; margin_usage_ratio := 60 |}.

(** The same trade with other money: a tenth of the account, four times the
    risk, a quarter of the margin. *)
Definition example_inputs_small : TradingInputs :=
  {| total_asset := 1000; risk_ratio := 20; direction := LONG;
     entry_price := 50000; stop_loss := 49000;
     take_profits := [51000; 52000]; margin_usage_ratio := 15 |}.

(** No margin may be used: [min_margin] is zero. *)
Definition zero_margin_inputs : TradingInputs :=
  {| total_asset := 10000; risk_ratio := 5; direction := LONG;
     entry_price := 50000; stop_loss := 49000;
     take_profits := [51000; 52000]; margin_usage_ratio := 0 |}.

(** A LONG setup whose stop is above the entry: [stop_loss_pct] is [-1]. *)
Definition inverted_stop_inputs : TradingInputs :=
  {| total_asset := 10000; risk_ratio := 5; direction := LONG;
     entry_price := 100; stop_loss := 101;
     take_profits := [110]; margin_usage_ratio := 60 |}.

(** A LONG setup whose stop is the entry. *)
Definition stop_at_entry_inputs : TradingInputs :=
  {| total_asset := 10000; risk_ratio := 5; direction := LONG;
     entry_price := 50000; stop_loss := 50000;
     take_profits := [51000; 52000]; margin_usage_ratio := 60 |}.

(** No target and no total asset. *)
Definition no_target_no_asset_inputs : TradingInputs :=
  {| total_asset := 0; risk_ratio := 5; direction := LONG;
     entry_price := 50000; stop_loss := 49000;
     take_profits := []; margin_usage_ratio := 60 |}.

(** ** Vocabulary of the further properties *)

(** The clamp of Step 5, as a function of the ratio
    [position_notional / min_margin]. *)
Definition clamp_leverage (ratio : Q) : Q :=
  if Qle_bool ratio MAX_LEVERAGE
  then if Qlt_bool ratio MIN_LEVERAGE then MIN_LEVERAGE else ratio
  else MAX_LEVERAGE.

(** The stop is on the losing side of the entry: below it for LONG, above
    it for SHORT. *)
Definition stop_on_loss_side (direction : Direction)
    (entry_price stop_loss : Q) : bool :=
  match direction with
  | LONG => Qlt_bool stop_loss entry_price
  | SHORT => Qlt_bool entry_price stop_loss
  end.

(** The inputs a trader means to give: positive account, risk and margin
    percentages, a positive entry price, the stop on the losing side. *)
Definition valid_setup (inputs : TradingInputs) : bool :=
  Qlt_bool 0 (total_asset inputs)
  && Qlt_bool 0 (risk_ratio inputs)
  && Qlt_bool 0 (margin_usage_ratio inputs)
  && Qlt_bool 0 (entry_price inputs)
  && stop_on_loss_side (direction inputs) (entry_price inputs)
       (stop_loss inputs).

(** The entry the per-target loop writes for the target [take_profit]: its
    net profit, and its theoretical ratio when the stop-loss percentage is
    positive. *)
Definition written_for (direction : Direction)
    (entry_price stop_loss_pct quantity entry_fee take_profit : Q)
    (e : TakeProfitResult) : Prop :=
  profit e
  = match direction with
    | LONG => (take_profit - entry_price) * quantity
    | SHORT => (entry_price - take_profit) * quantity
    end - entry_fee - take_profit * quantity * TAKER_FEE_RATE
  /\ (0 < stop_loss_pct ->
      rr_ratio e
      = match direction with
        | LONG => (take_profit - entry_price) / entry_price * 100
        | SHORT => (entry_price - take_profit) / entry_price * 100
        end / stop_loss_pct).

(** The flags one target loop raises, as a list of its own: [violates tp x]
    is the loop's test of a target against the entry price or the previous
    price, [entry_flag] and [prev_flag] its two messages. *)
Fixpoint flag_targets (violates : Q -> Q -> bool)
    (entry_flag prev_flag : nat -> string) (entry_price prev_tp : Q)
    (idx : nat) (take_profits : list Q) : list string :=
  match take_profits with
  | [] => []
  | take_profit :: rest =>
      append_if (violates take_profit prev_tp) (prev_flag idx)
        (append_if (violates take_profit entry_price) (entry_flag idx) [])
      ++ flag_targets violates entry_flag prev_flag entry_price take_profit
           (S idx) rest
  end.



(** Two strings end alike when the shorter one is an ending of the longer
    one; otherwise they clash, and nothing put in front of them makes them
    equal. *)
Fixpoint ascii_list_eqb (a b : list Ascii.ascii) : bool :=
  match a, b with
  | [], [] => true
  | x :: a, y :: b => Ascii.eqb x y && ascii_list_eqb a b
  | _, _ => false
  end.

Definition ends_alike (a b : list Ascii.ascii) : bool :=
  let n := Nat.min (length a) (length b) in
  ascii_list_eqb (drop (length a - n) a) (drop (length b - n) b).

Definition clash (a b : string) : bool :=
  negb (ends_alike (String.list_ascii_of_string a) (String.list_ascii_of_string b)).

(** What one key adds to the value column of the results table. *)
Definition values_of_key (format_f format_grouped_f : nat -> Q -> string)
    (take_profit_results : gmap nat TakeProfitResult) (tp_num : nat)
    : list string :=
  from_option (target_values format_f format_grouped_f) []
    (take_profit_results !! tp_num).

(** A stand-in for Python's formatting, to run the presentation on concrete
    inputs: the fraction as it is, without rounding. *)
Definition fraction_f (decimals : nat) (x : Q) : string :=
  pretty (Qnum x) +:+ "/" +:+ pretty (Zpos (Qden x)).

(** * Properties *)

(** ** The code on concrete inputs *)

(** The figures of the specification's example scenario. *)
Example example_scenario :
  exists r,
    calculate_trading_results example_inputs = Return r
    /\ stop_loss_pct r == 2
    /\ position_quantity r == 500 / 1039.6
    /\ position_leverage r == position_notional r / 6000
    /\ required_margin r == 6000
    /\ effective_leverage r == position_notional r / 10000
    /\ actual_loss_amount r == 500
    /\ structural_issue r = NO_ISSUE
    /\ overall_judgment r = NO_ISSUE.
Proof.
  eexists. split; [vm_compute; reflexivity|].
  repeat split; vm_compute; reflexivity.
Qed.

Example example_first_target :
  exists r e,
    calculate_trading_results example_inputs = Return r
    /\ take_profit_results r !! 1%nat = Some e
    /\ rr_ratio e == 1
    /\ profit e == (1000 - 50000 * 0.0004 - 51000 * 0.0004) * (500 / 1039.6).
Proof.
  eexists _, _. split; [vm_compute; reflexivity|].
  split; [vm_compute; reflexivity|]. split; vm_compute; reflexivity.
Qed.

Example swapped_targets_issue :
  check_structural_issues LONG 50000 49000 [52000; 51000]
  = "2차 익절이 이전 익절가보다 낮거나 같음".
Proof. vm_compute. reflexivity. Qed.

Example short_setup_issues :
  check_structural_issues SHORT 100 90 [110; 95]
  = "스탑로스가 진입가보다 낮거나 같음 / 1차 익절이 진입가보다 높거나 같음 / 1차 익절이 이전 익절가보다 높거나 같음".
Proof. vm_compute. reflexivity. Qed.

Example wide_stop_judgment :
  judge_overall 3 6 NO_ISSUE = "SL 조정 필요"
  /\ judge_overall 200 6 "x" = "SL 조정 필요 / 사이즈 조정 필요 / SL 조정 필요"
  /\ judge_overall 2 (1 # 2) NO_ISSUE = "사이즈 조정 필요".
Proof. repeat split; vm_compute; reflexivity. Qed.

(** ** Arithmetic of the model *)

Lemma truediv_Return (x y : Q) : ~ y == 0 -> truediv x y = Return (x / y).
Proof.
  intros Hy. unfold truediv.
  destruct (Qeq_bool y 0) eqn:E; [|reflexivity].
  apply Qeq_bool_eq in E. contradiction.
Qed.

Lemma truediv_Raise (x y : Q) :
  y == 0 -> truediv x y = Raise ZeroDivisionError.
Proof.
  intros Hy. unfold truediv. now rewrite (Qeq_eq_bool _ _ Hy).
Qed.

Lemma truediv_inv (x y q : Q) :
  truediv x y = Return q -> ~ y == 0 /\ q = x / y.
Proof.
  unfold truediv. destruct (Qeq_bool y 0) eqn:E; [discriminate|].
  intros [= <-]. split; [now apply Qeq_bool_neq|reflexivity].
Qed.

Lemma Qlt_bool_iff (x y : Q) : Qlt_bool x y = true <-> x < y.
Proof.
  unfold Qlt_bool. rewrite negb_true_iff, <- not_true_iff_false, Qle_bool_iff.
  split; [apply Qnot_le_lt|apply Qlt_not_le].
Qed.

Lemma Qlt_bool_false_iff (x y : Q) : Qlt_bool x y = false <-> y <= x.
Proof.
  unfold Qlt_bool. now rewrite negb_false_iff, Qle_bool_iff.
Qed.

(** ** Sizing and the risk budget *)

(** The quantity [risk_amount / denominator] is the one at which the
    fee-inclusive loss is [risk_amount]. *)
Lemma loss_at_sized_quantity
    (direction : Direction) (entry_price stop_loss risk_amount : Q) :
  let denominator :=
    match direction with
    | LONG => entry_price - stop_loss
    | SHORT => stop_loss - entry_price
    end + (entry_price + stop_loss) * TAKER_FEE_RATE in
  let quantity := risk_amount / denominator in
  ~ denominator == 0 ->
  calculate_actual_loss direction entry_price stop_loss
    (entry_price * quantity) quantity == risk_amount.
Proof.
  intros denominator quantity Hden.
  unfold calculate_actual_loss, quantity, denominator in *.
  destruct direction; field; exact Hden.
Qed.

(** C1.  When the sizing denominator
    [price_diff + (entry_price + stop_loss) * TAKER_FEE_RATE] is not zero,
    position sizing returns a quantity at which the fee-inclusive loss
    (price loss, entry fee on the notional, exit fee at the stop) equals the
    risk budget [total_asset * risk_ratio / 100], for LONG and for SHORT. *)
Theorem sizing_loss_is_risk_budget
    (direction : Direction) (entry_price stop_loss total_asset risk_ratio : Q) :
  let price_diff :=
    match direction with
    | LONG => entry_price - stop_loss
    | SHORT => stop_loss - entry_price
    end in
  let risk_amount := calculate_risk_amount total_asset risk_ratio in
  ~ price_diff + (entry_price + stop_loss) * TAKER_FEE_RATE == 0 ->
  exists notional quantity,
    calculate_position_size direction entry_price stop_loss risk_amount
      = Return (notional, quantity)
    /\ calculate_actual_loss direction entry_price stop_loss notional quantity
         == risk_amount
    /\ risk_amount == total_asset * risk_ratio / 100.
Proof.
  intros price_diff risk_amount Hden.
  unfold calculate_position_size. fold price_diff.
  rewrite (truediv_Return _ _ Hden). cbn.
  eexists _, _. split; [reflexivity|]. split.
  - exact (loss_at_sized_quantity direction entry_price stop_loss
             risk_amount Hden).
  - unfold risk_amount, calculate_risk_amount. field.
Qed.

Lemma sizing_loss_is_risk_budget_witness :
  exists notional quantity,
    calculate_position_size LONG 50000 49000
        (calculate_risk_amount 10000 5) = Return (notional, quantity)
    /\ calculate_actual_loss LONG 50000 49000 notional quantity
         == calculate_risk_amount 10000 5
    /\ calculate_risk_amount 10000 5 == 10000 * 5 / 100.
Proof.
  apply (sizing_loss_is_risk_budget LONG 50000 49000 10000 5).
  vm_compute. discriminate.
Defined.

(** ** Running in the monad *)

Lemma bind_Return_inv {A B : Type} (m : py A) (f : A -> py B) (b : B) :
  m ≫= f = Return b -> exists a, m = Return a /\ f a = Return b.
Proof.
  destruct m as [a|e]; cbn; [eauto|discriminate].
Qed.

Lemma py_cases {A : Type} (m : py A) :
  (exists a, m = Return a) \/ m = Raise ZeroDivisionError.
Proof.
  destruct m as [a|[]]; eauto.
Qed.

(** Inverts [m ≫= f = Return b] hypotheses, and the [truediv]s they
    uncover. *)
Tactic Notation "inv_bind" hyp(H) "as" ident(a) ident(Ha) :=
  apply bind_Return_inv in H; destruct H as (a & Ha & H); cbn beta in H.

Tactic Notation "inv_truediv" hyp(H) "as" ident(Hnz) :=
  apply truediv_inv in H; destruct H as [Hnz H].

(** ** Leverage *)

(** What [calculate_leverage] returns, when it returns. *)
Lemma calculate_leverage_Return
    (position_notional risk_amount total_asset margin_usage_ratio : Q)
    (leverage effective_leverage required_margin : Q) :
  calculate_leverage position_notional risk_amount total_asset
      margin_usage_ratio
    = Return (leverage, effective_leverage, required_margin) ->
  let min_margin := total_asset * (margin_usage_ratio / 100) in
  let ratio := position_notional / min_margin in
  ~ min_margin == 0 /\ ~ total_asset == 0
  /\ leverage =
       (if Qle_bool ratio MAX_LEVERAGE
        then if Qlt_bool ratio MIN_LEVERAGE then MIN_LEVERAGE else ratio
        else MAX_LEVERAGE)
  /\ effective_leverage = position_notional / total_asset
  /\ required_margin = position_notional / leverage.
Proof.
  intros H min_margin ratio. unfold calculate_leverage in H.
  fold min_margin in H.
  inv_bind H as ratio' Hratio. inv_truediv Hratio as Hmm. subst ratio'.
  fold ratio in H.
  inv_bind H as lev Hlev. inv_bind H as req Hreq. inv_bind H as eff Heff.
  injection H as <- <- <-.
  inv_truediv Hreq as Hl. inv_truediv Heff as Hta. subst req eff.
  repeat split; try assumption.
  destruct (Qle_bool ratio MAX_LEVERAGE).
  - inv_bind Hlev as lev' Hlev'. inv_truediv Hlev' as Hmm'. subst lev'.
    fold ratio in Hlev. now injection Hlev as <-.
  - now injection Hlev as <-.
Qed.

(** The clamp: whatever the ratio, the result lies in
    [[MIN_LEVERAGE, MAX_LEVERAGE]]. *)
Lemma clamp_bounds (ratio : Q) :
  let leverage :=
    if Qle_bool ratio MAX_LEVERAGE
    then if Qlt_bool ratio MIN_LEVERAGE then MIN_LEVERAGE else ratio
    else MAX_LEVERAGE in
  MIN_LEVERAGE <= leverage <= MAX_LEVERAGE.
Proof.
  cbn zeta. unfold MIN_LEVERAGE, MAX_LEVERAGE.
  destruct (Qle_bool ratio 150) eqn:Hmax.
  - apply Qle_bool_iff in Hmax.
    destruct (Qlt_bool ratio 3) eqn:Hmin.
    + split; lra.
    + apply Qlt_bool_false_iff in Hmin. split; assumption.
  - split; lra.
Qed.

Lemma calculate_leverage_bounds
    (position_notional risk_amount total_asset margin_usage_ratio : Q)
    (leverage effective_leverage required_margin : Q) :
  calculate_leverage position_notional risk_amount total_asset
      margin_usage_ratio
    = Return (leverage, effective_leverage, required_margin) ->
  MIN_LEVERAGE <= leverage <= MAX_LEVERAGE.
Proof.
  intros H. apply calculate_leverage_Return in H.
  destruct H as (_ & _ & -> & _). apply clamp_bounds.
Qed.

(** [calculate_leverage] returns as soon as [min_margin] and [total_asset]
    are not zero: its third divisor, the clamped leverage, is at least 3. *)
Lemma calculate_leverage_returns
    (position_notional risk_amount total_asset margin_usage_ratio : Q) :
  ~ total_asset * (margin_usage_ratio / 100) == 0 ->
  ~ total_asset == 0 ->
  exists leverage effective_leverage required_margin,
    calculate_leverage position_notional risk_amount total_asset
        margin_usage_ratio
      = Return (leverage, effective_leverage, required_margin).
Proof.
  intros Hmm Hta. unfold calculate_leverage.
  rewrite (truediv_Return _ _ Hmm). cbn.
  set (ratio := position_notional / _).
  pose proof (clamp_bounds ratio) as Hb. cbn zeta in Hb.
  destruct (Qle_bool ratio MAX_LEVERAGE).
  - cbn. fold ratio.
    set (leverage := if Qlt_bool ratio MIN_LEVERAGE then _ else _) in *.
    assert (Hl : ~ leverage == 0) by (unfold MIN_LEVERAGE in Hb; lra).
    rewrite (truediv_Return _ _ Hl), (truediv_Return _ _ Hta). cbn. eauto.
  - cbn. assert (Hl : ~ MAX_LEVERAGE == 0) by easy.
    rewrite (truediv_Return _ _ Hl), (truediv_Return _ _ Hta). cbn. eauto.
Qed.

(** ** The steps behind a returned result *)

(** A returned [TradingResults] records what each step returned. *)
Lemma calculate_trading_results_inv (inputs : TradingInputs)
    (r : TradingResults) :
  calculate_trading_results inputs = Return r ->
  let risk_amount :=
    calculate_risk_amount (total_asset inputs) (risk_ratio inputs) in
  calculate_stop_loss (direction inputs) (entry_price inputs)
      (stop_loss inputs)
    = Return (stop_loss_pct r, stop_loss_price r)
  /\ calculate_position_size (direction inputs) (entry_price inputs)
       (stop_loss inputs) risk_amount
     = Return (position_notional r, position_quantity r)
  /\ actual_loss_amount r =
       calculate_actual_loss (direction inputs) (entry_price inputs)
         (stop_loss inputs) (position_notional r) (position_quantity r)
  /\ calculate_leverage (position_notional r) risk_amount
       (total_asset inputs) (margin_usage_ratio inputs)
     = Return (position_leverage r, effective_leverage r, required_margin r)
  /\ calculate_rr_and_profit (direction inputs) (entry_price inputs)
       (stop_loss inputs) (take_profits inputs) (position_notional r)
       (position_quantity r) (stop_loss_pct r)
     = Return (take_profit_results r)
  /\ structural_issue r =
       check_structural_issues (direction inputs) (entry_price inputs)
         (stop_loss inputs) (take_profits inputs)
  /\ overall_judgment r =
       judge_overall (position_leverage r) (stop_loss_pct r)
         (structural_issue r)
  /\ actual_entry_notional r = position_notional r
  /\ actual_entry_quantity r = position_quantity r
  /\ actual_entry_leverage r = position_leverage r.
Proof.
  intros H risk_amount. unfold calculate_trading_results in H.
  fold risk_amount in H.
  inv_bind H as sl Hsl. destruct sl as [slp slprice].
  inv_bind H as size Hsize. destruct size as [notional quantity].
  inv_bind H as lev Hlev. destruct lev as [[leverage eff] req].
  inv_bind H as tpr Htpr. injection H as <-. cbn.
  repeat split; assumption.
Qed.

Lemma divisors_nonzero_iff (inputs : TradingInputs) :
  divisors_nonzero inputs = true <->
  ~ entry_price inputs == 0 /\ ~ sizing_denominator inputs == 0
  /\ ~ min_margin inputs == 0 /\ ~ total_asset inputs == 0.
Proof.
  unfold divisors_nonzero.
  rewrite !andb_true_iff, !negb_true_iff, <- !not_true_iff_false,
    !Qeq_bool_iff.
  tauto.
Qed.

Lemma calculate_stop_loss_returns (direction : Direction)
    (entry_price stop_loss : Q) :
  ~ entry_price == 0 ->
  exists pct, calculate_stop_loss direction entry_price stop_loss
              = Return (pct, stop_loss).
Proof.
  intros He. unfold calculate_stop_loss.
  destruct direction; rewrite (truediv_Return _ _ He); cbn; eauto.
Qed.

Lemma calculate_stop_loss_inv (direction : Direction)
    (entry_price stop_loss pct price : Q) :
  calculate_stop_loss direction entry_price stop_loss = Return (pct, price) ->
  ~ entry_price == 0 /\ price = stop_loss.
Proof.
  unfold calculate_stop_loss. intros H.
  destruct direction; inv_bind H as q Hq; inv_truediv Hq as He;
    injection H as _ <-; now split.
Qed.

(** *** The per-target loop *)

Section rr_loop_facts.
Variables (direction : Direction) (entry_price stop_loss_pct : Q).
Variables (quantity entry_fee actual_loss_with_fee : Q).

Abbreviation loop := (rr_loop direction entry_price stop_loss_pct quantity
                    entry_fee actual_loss_with_fee).

(** Each of the two conditional divisions is guarded by [divisor > 0]. *)
Lemma guarded_truediv_returns (x y : Q) :
  exists q, (if Qlt_bool 0 y then truediv x y else mret 0) = Return q.
Proof.
  destruct (Qlt_bool 0 y) eqn:Hy; [|now eexists].
  apply Qlt_bool_iff in Hy. rewrite truediv_Return; [now eexists|lra].
Qed.

Lemma rr_loop_returns (take_profits : list Q) :
  ~ entry_price == 0 ->
  forall idx results, exists results', loop idx take_profits results
                                       = Return results'.
Proof.
  intros He. induction take_profits as [|take_profit rest IH];
    intros idx results; cbn [rr_loop]; [now eexists|].
  assert (Hpct : exists profit_pct,
    match direction with
    | LONG => q ← truediv (take_profit - entry_price) entry_price;
              mret (q * 100)
    | SHORT => q ← truediv (entry_price - take_profit) entry_price;
               mret (q * 100)
    end = Return profit_pct).
  { destruct direction; rewrite (truediv_Return _ _ He); cbn; eauto. }
  destruct Hpct as [profit_pct ->]. cbn.
  destruct (guarded_truediv_returns profit_pct stop_loss_pct) as [rr ->].
  cbn. match goal with |- context [truediv ?x actual_loss_with_fee] =>
    destruct (guarded_truediv_returns x actual_loss_with_fee) as [ar ->]
  end.
  cbn. apply IH.
Qed.

Lemma rr_loop_entries (take_profits : list Q) :
  forall idx results results',
    loop idx take_profits results = Return results' ->
    map_Forall
      (fun _ => entry_guarded stop_loss_pct actual_loss_with_fee) results ->
    map_Forall
      (fun _ => entry_guarded stop_loss_pct actual_loss_with_fee) results'.
Proof.
  induction take_profits as [|take_profit rest IH];
    intros idx results results' H Hres; cbn [rr_loop] in H.
  - now injection H as <-.
  - inv_bind H as profit_pct Hpct. inv_bind H as rr Hrr.
    inv_bind H as ar Har.
    apply IH in H; [exact H|]. apply map_Forall_insert_2; [|exact Hres].
    unfold entry_guarded. cbn. repeat split.
    + intros Hle. apply Qlt_bool_false_iff in Hle. rewrite Hle in Hrr.
      now injection Hrr as <-.
    + intros Hle. apply Qlt_bool_false_iff in Hle. rewrite Hle in Har.
      now injection Har as <-.
    + intros Hlt. apply Qlt_bool_iff in Hlt. rewrite Hlt in Har.
      inv_truediv Har as Hnz. exact Har.
Qed.

(** The loop writes the keys [idx], [idx + 1], ... one per target. *)
Lemma rr_loop_dom (take_profits : list Q) :
  forall idx results results',
    loop idx take_profits results = Return results' ->
    dom results' = dom results ∪ set_seq idx (length take_profits).
Proof.
  induction take_profits as [|take_profit rest IH];
    intros idx results results' H; cbn [rr_loop] in H.
  - injection H as <-. cbn. now rewrite (right_id_L ∅ (∪)).
  - inv_bind H as profit_pct Hpct. inv_bind H as rr Hrr.
    inv_bind H as ar Har.
    apply IH in H. rewrite H, dom_insert_L. cbn [length set_seq].
    now rewrite (comm_L (∪) {[idx]} (dom results)), <- (assoc_L (∪)).
Qed.
End rr_loop_facts.

Lemma calculate_rr_and_profit_returns (direction : Direction)
    (entry_price stop_loss : Q) (take_profits : list Q)
    (notional quantity stop_loss_pct : Q) :
  ~ entry_price == 0 ->
  exists results,
    calculate_rr_and_profit direction entry_price stop_loss take_profits
      notional quantity stop_loss_pct = Return results.
Proof.
  intros He. unfold calculate_rr_and_profit. now apply rr_loop_returns.
Qed.

(** The result has one entry per target, under the keys [1 .. N]. *)
Lemma calculate_rr_and_profit_dom (direction : Direction)
    (entry_price stop_loss : Q) (take_profits : list Q)
    (notional quantity stop_loss_pct : Q)
    (results : gmap nat TakeProfitResult) :
  calculate_rr_and_profit direction entry_price stop_loss take_profits
    notional quantity stop_loss_pct = Return results ->
  forall idx : nat,
    is_Some (results !! idx) <-> (1 <= idx <= length take_profits)%nat.
Proof.
  unfold calculate_rr_and_profit. intros H idx.
  apply rr_loop_dom in H.
  rewrite <- elem_of_dom, H, dom_empty_L, elem_of_union, elem_of_set_seq.
  rewrite elem_of_empty. lia.
Qed.

(** *** When the pipeline returns *)

Lemma calculate_trading_results_returns (inputs : TradingInputs) :
  divisors_nonzero inputs = true ->
  exists r, calculate_trading_results inputs = Return r.
Proof.
  intros H. apply divisors_nonzero_iff in H as (He & Hden & Hmm & Hta).
  unfold calculate_trading_results.
  destruct (calculate_stop_loss_returns (direction inputs) _
              (stop_loss inputs) He) as [pct ->]. cbn.
  unfold calculate_position_size. fold (sizing_denominator inputs).
  rewrite (truediv_Return _ _ Hden). cbn.
  match goal with |- context [calculate_leverage ?n ?ra _ _] =>
    destruct (calculate_leverage_returns n ra _ _ Hmm Hta)
      as (leverage & eff & req & ->)
  end. cbn.
  match goal with |- context [calculate_rr_and_profit ?d _ ?s ?t ?n ?q ?p] =>
    destruct (calculate_rr_and_profit_returns d _ s t n q p He) as [tpr ->]
  end. cbn. eauto.
Qed.

Lemma calculate_trading_results_Return_nonzero (inputs : TradingInputs)
    (r : TradingResults) :
  calculate_trading_results inputs = Return r ->
  divisors_nonzero inputs = true.
Proof.
  intros H. apply calculate_trading_results_inv in H.
  destruct H as (Hsl & Hsize & _ & Hlev & _).
  apply calculate_stop_loss_inv in Hsl as [He _].
  unfold calculate_position_size in Hsize.
  inv_bind Hsize as q Hq. inv_truediv Hq as Hden.
  fold (sizing_denominator inputs) in Hden.
  apply calculate_leverage_Return in Hlev as (Hmm & Hta & _).
  apply divisors_nonzero_iff. repeat split; assumption.
Qed.

(** In a returned result the recorded loss is the risk budget. *)
Lemma actual_loss_amount_is_risk_amount (inputs : TradingInputs)
    (r : TradingResults) :
  calculate_trading_results inputs = Return r ->
  actual_loss_amount r
  == calculate_risk_amount (total_asset inputs) (risk_ratio inputs).
Proof.
  intros H. apply calculate_trading_results_inv in H.
  destruct H as (_ & Hsize & -> & _).
  unfold calculate_position_size in Hsize.
  inv_bind Hsize as quantity Hq. inv_truediv Hq as Hden.
  injection Hsize as <- <-. subst quantity.
  exact (loss_at_sized_quantity _ _ _ _ Hden).
Qed.

(** Every entry of a returned result obeys the two guards of the loop,
    the second of which reads the recorded loss. *)
Lemma returned_entries_guarded (inputs : TradingInputs) (r : TradingResults)
    (idx : nat) (e : TakeProfitResult) :
  calculate_trading_results inputs = Return r ->
  take_profit_results r !! idx = Some e ->
  entry_guarded (stop_loss_pct r) (actual_loss_amount r) e.
Proof.
  intros H He. apply calculate_trading_results_inv in H.
  destruct H as (_ & _ & -> & _ & Htpr & _).
  unfold calculate_rr_and_profit in Htpr.
  apply rr_loop_entries in Htpr; [|apply map_Forall_empty].
  exact (Htpr idx e He).
Qed.

(** ** Properties of the result *)

(** C2.  Whatever the inputs, their size or their sign, the
    [position_leverage] of a returned result lies between 3 and 150,
    bounds included. *)
Theorem position_leverage_in_range (inputs : TradingInputs)
    (r : TradingResults) :
  calculate_trading_results inputs = Return r ->
  3 <= position_leverage r <= 150.
Proof.
  intros H. apply calculate_trading_results_inv in H.
  destruct H as (_ & _ & _ & Hlev & _).
  exact (calculate_leverage_bounds _ _ _ _ _ _ _ Hlev).
Qed.

Lemma position_leverage_in_range_witness :
  exists r, calculate_trading_results example_inputs = Return r
            /\ 3 <= position_leverage r <= 150.
Proof.
  destruct (calculate_trading_results example_inputs) as [r|e] eqn:E.
  - exists r. split; [reflexivity|].
    exact (position_leverage_in_range example_inputs r E).
  - vm_compute in E. discriminate.
Defined.

(** Against C3 as stated: with [margin_usage_ratio = 0] the calculation
    raises; no [TradingResults] is returned, and so no field of it is
    non-finite. *)
Lemma zero_margin_raises :
  calculate_trading_results zero_margin_inputs = Raise ZeroDivisionError
  /\ ~ exists r, calculate_trading_results zero_margin_inputs = Return r.
Proof.
  assert (H : calculate_trading_results zero_margin_inputs
              = Raise ZeroDivisionError) by (vm_compute; reflexivity).
  split; [exact H|]. intros [r Hr]. rewrite H in Hr. discriminate.
Qed.

(** C10.  For LONG and for SHORT, the [stop_loss_price] of the result is the
    [stop_loss] of the inputs, unchanged. *)
Theorem stop_loss_price_is_input (inputs : TradingInputs)
    (r : TradingResults) :
  calculate_trading_results inputs = Return r ->
  stop_loss_price r = stop_loss inputs.
Proof.
  intros H. apply calculate_trading_results_inv in H.
  destruct H as (Hsl & _).
  now apply calculate_stop_loss_inv in Hsl as [_ ->].
Qed.

Lemma stop_loss_price_is_input_witness :
  exists r, calculate_trading_results example_inputs = Return r
            /\ stop_loss_price r = 49000.
Proof.
  destruct (calculate_trading_results example_inputs) as [r|e] eqn:E.
  - exists r. split; [reflexivity|].
    exact (stop_loss_price_is_input example_inputs r E).
  - vm_compute in E. discriminate.
Defined.

(** The detector reads its prices through [<=] only, so it cannot tell
    equal numbers apart. *)
Lemma long_targets_Qeq (entry_price entry_price' : Q)
    (take_profits take_profits' : list Q) :
  entry_price == entry_price' ->
  Forall2 Qeq take_profits take_profits' ->
  forall (prev_tp prev_tp' : Q) (idx : nat) (issues : list string),
    prev_tp == prev_tp' ->
    long_targets entry_price prev_tp idx take_profits issues
    = long_targets entry_price' prev_tp' idx take_profits' issues.
Proof.
  intros He Htps.
  induction Htps as [|tp tp' rest rest' Htp _ IH];
    intros prev_tp prev_tp' idx issues Hprev; cbn [long_targets];
    [reflexivity|].
  rewrite (Qleb_comp _ _ Htp _ _ He), (Qleb_comp _ _ Htp _ _ Hprev).
  now apply IH.
Qed.

Lemma short_targets_Qeq (entry_price entry_price' : Q)
    (take_profits take_profits' : list Q) :
  entry_price == entry_price' ->
  Forall2 Qeq take_profits take_profits' ->
  forall (prev_tp prev_tp' : Q) (idx : nat) (issues : list string),
    prev_tp == prev_tp' ->
    short_targets entry_price prev_tp idx take_profits issues
    = short_targets entry_price' prev_tp' idx take_profits' issues.
Proof.
  intros He Htps.
  induction Htps as [|tp tp' rest rest' Htp _ IH];
    intros prev_tp prev_tp' idx issues Hprev; cbn [short_targets];
    [reflexivity|].
  rewrite (Qleb_comp _ _ He _ _ Htp), (Qleb_comp _ _ Hprev _ _ Htp).
  now apply IH.
Qed.

Lemma check_structural_issues_Qeq (direction : Direction)
    (entry_price entry_price' stop_loss stop_loss' : Q)
    (take_profits take_profits' : list Q) :
  entry_price == entry_price' ->
  stop_loss == stop_loss' ->
  Forall2 Qeq take_profits take_profits' ->
  check_structural_issues direction entry_price stop_loss take_profits
  = check_structural_issues direction entry_price' stop_loss' take_profits'.
Proof.
  intros He Hs Htps. unfold check_structural_issues, structural_issues.
  destruct direction.
  - now rewrite (Qleb_comp _ _ He _ _ Hs),
      (long_targets_Qeq _ _ _ _ He Htps _ _ _ _ He).
  - now rewrite (Qleb_comp _ _ Hs _ _ He),
      (short_targets_Qeq _ _ _ _ He Htps _ _ _ _ He).
Qed.

(** C9.  Two inputs with the same direction and with equal entry price,
    stop loss and targets yield the same [structural_issue] string, whatever
    their total asset, risk ratio and margin usage ratio. *)
Theorem structural_issue_ignores_money (inputs1 inputs2 : TradingInputs)
    (r1 r2 : TradingResults) :
  direction inputs1 = direction inputs2 ->
  entry_price inputs1 == entry_price inputs2 ->
  stop_loss inputs1 == stop_loss inputs2 ->
  Forall2 Qeq (take_profits inputs1) (take_profits inputs2) ->
  calculate_trading_results inputs1 = Return r1 ->
  calculate_trading_results inputs2 = Return r2 ->
  structural_issue r1 = structural_issue r2.
Proof.
  intros Hd He Hs Ht H1 H2.
  apply calculate_trading_results_inv in H1, H2.
  destruct H1 as (_ & _ & _ & _ & _ & -> & _).
  destruct H2 as (_ & _ & _ & _ & _ & -> & _).
  rewrite Hd. now apply check_structural_issues_Qeq.
Qed.

Lemma structural_issue_ignores_money_witness :
  exists r1 r2,
    calculate_trading_results example_inputs = Return r1
    /\ calculate_trading_results example_inputs_small = Return r2
    /\ structural_issue r1 = structural_issue r2.
Proof.
  destruct (calculate_trading_results example_inputs) as [r1|e] eqn:E1;
    [|vm_compute in E1; discriminate].
  destruct (calculate_trading_results example_inputs_small) as [r2|e] eqn:E2;
    [|vm_compute in E2; discriminate].
  exists r1, r2. split; [reflexivity|]. split; [reflexivity|].
  apply (structural_issue_ignores_money example_inputs example_inputs_small
           r1 r2); try reflexivity; assumption.
Defined.

(** ** Per-target results *)

(** Against C4 as stated: on [inverted_stop_inputs] the calculation returns,
    the stop-loss percentage is negative, and the first target's [actual_rr]
    is not zero.  Its guard is the fee-inclusive loss, which is the positive
    risk budget. *)
Lemma inverted_stop_actual_rr_nonzero :
  exists r e,
    calculate_trading_results inverted_stop_inputs = Return r
    /\ stop_loss_pct r <= 0
    /\ take_profit_results r !! 1%nat = Some e
    /\ ~ actual_rr e == 0.
Proof.
  destruct (calculate_trading_results inverted_stop_inputs) as [r|x] eqn:E;
    [|vm_compute in E; discriminate].
  destruct (take_profit_results r !! 1%nat) as [e|] eqn:Ee;
    [|vm_compute in E; injection E as <-; vm_compute in Ee; discriminate].
  exists r, e. split; [reflexivity|].
  vm_compute in E. injection E as <-. vm_compute in Ee. injection Ee as <-.
  split; [|split; [reflexivity|]]; vm_compute; discriminate.
Qed.

(** C4, amended.  When the stop-loss percentage that Step 2 returned is zero
    or negative, Step 6 raises no fault and every entry of its result has
    [rr_ratio = 0].  The entry's [actual_rr] is guarded by the fee-inclusive
    loss, not by the stop-loss percentage: it is [0] when that loss is zero
    or negative, and [profit / loss] when the loss is positive. *)
Theorem nonpositive_stop_pct_entries
    (direction : Direction) (entry_price stop_loss : Q)
    (take_profits : list Q) (notional quantity stop_loss_pct price : Q) :
  calculate_stop_loss direction entry_price stop_loss
    = Return (stop_loss_pct, price) ->
  stop_loss_pct <= 0 ->
  let loss :=
    calculate_actual_loss direction entry_price stop_loss notional quantity in
  exists results,
    calculate_rr_and_profit direction entry_price stop_loss take_profits
      notional quantity stop_loss_pct = Return results
    /\ forall (idx : nat) (e : TakeProfitResult),
         results !! idx = Some e ->
         rr_ratio e = 0
         /\ (loss <= 0 -> actual_rr e = 0)
         /\ (0 < loss -> actual_rr e = profit e / loss).
Proof.
  intros Hsl Hpct loss. apply calculate_stop_loss_inv in Hsl as [He _].
  destruct (calculate_rr_and_profit_returns direction entry_price stop_loss
              take_profits notional quantity stop_loss_pct He)
    as [results Hres].
  exists results. split; [exact Hres|]. intros idx e Hidx.
  unfold calculate_rr_and_profit in Hres.
  apply rr_loop_entries in Hres; [|apply map_Forall_empty].
  destruct (Hres idx e Hidx) as (Hrr & Har0 & Har).
  split; [exact (Hrr Hpct)|]. split; assumption.
Qed.

Lemma nonpositive_stop_pct_entries_witness :
  exists results,
    calculate_rr_and_profit LONG 100 101 [110] (-54300) (-543) (-100 # 100)
      = Return results
    /\ forall (idx : nat) (e : TakeProfitResult),
         results !! idx = Some e ->
         rr_ratio e = 0
         /\ (calculate_actual_loss LONG 100 101 (-54300) (-543) <= 0 ->
             actual_rr e = 0)
         /\ (0 < calculate_actual_loss LONG 100 101 (-54300) (-543) ->
             actual_rr e
             = profit e / calculate_actual_loss LONG 100 101 (-54300) (-543)).
Proof.
  apply (nonpositive_stop_pct_entries LONG 100 101 [110] (-54300) (-543)
           (-100 # 100) 101).
  - vm_compute. reflexivity.
  - vm_compute. discriminate.
Defined.

(** Against C5 as stated: an empty target list does not keep the other
    steps from raising. *)
Lemma no_target_no_asset_raises :
  take_profits no_target_no_asset_inputs = []
  /\ ~ exists r,
         calculate_trading_results no_target_no_asset_inputs = Return r.
Proof.
  split; [reflexivity|]. intros [r Hr]. vm_compute in Hr. discriminate.
Qed.

(** ** The overall judgment and the clamped leverage *)

(** C6.  With a positive [min_margin], that is
    [total_asset * (margin_usage_ratio / 100)], Step 5 returns a leverage
    that is not below [MIN_LEVERAGE]; fed to [judge_overall], it makes the
    condition of the [elif] false for every stop-loss percentage, so that
    branch is never taken. *)
Theorem low_leverage_branch_unreachable
    (position_notional risk_amount total_asset margin_usage_ratio : Q) :
  0 < total_asset * (margin_usage_ratio / 100) ->
  exists leverage effective_leverage required_margin,
    calculate_leverage position_notional risk_amount total_asset
        margin_usage_ratio
      = Return (leverage, effective_leverage, required_margin)
    /\ Qlt_bool leverage MIN_LEVERAGE = false
    /\ forall stop_loss_pct : Q,
         below_min_tight_stop leverage stop_loss_pct = false.
Proof.
  intros Hpos.
  assert (Hmm : ~ total_asset * (margin_usage_ratio / 100) == 0) by lra.
  assert (Hta : ~ total_asset == 0).
  { intros H. rewrite H in Hpos. lra. }
  destruct (calculate_leverage_returns position_notional risk_amount
              total_asset margin_usage_ratio Hmm Hta)
    as (leverage & eff & req & Hlev).
  exists leverage, eff, req. split; [exact Hlev|].
  apply calculate_leverage_bounds in Hlev as [Hmin _].
  assert (Hlt : Qlt_bool leverage MIN_LEVERAGE = false)
    by now apply Qlt_bool_false_iff.
  split; [exact Hlt|]. intros stop_loss_pct.
  unfold below_min_tight_stop. now rewrite Hlt.
Qed.

Lemma low_leverage_branch_unreachable_witness :
  exists leverage effective_leverage required_margin,
    calculate_leverage 1000 500 10000 60
      = Return (leverage, effective_leverage, required_margin)
    /\ Qlt_bool leverage MIN_LEVERAGE = false
    /\ forall stop_loss_pct : Q,
         below_min_tight_stop leverage stop_loss_pct = false.
Proof.
  apply (low_leverage_branch_unreachable 1000 500 10000 60).
  vm_compute. reflexivity.
Defined.

(** ** Structural issues *)

(** *** Joined messages *)

Lemma string_app_assoc (s1 s2 s3 : string) :
  (s1 +:+ s2) +:+ s3 = s1 +:+ s2 +:+ s3.
Proof.
  induction s1 as [|c s1 IH]; [reflexivity|].
  unfold String.app in *. cbn. now rewrite IH.
Qed.

Lemma join_cons (sep s : string) (rest : list string) :
  exists tail : string, join sep (s :: rest) = s +:+ tail.
Proof.
  destruct rest as [|s' rest]; cbn [join].
  - exists "". induction s as [|c s IH]; [reflexivity|].
    unfold String.app in *. cbn. now rewrite <- IH.
  - now eexists.
Qed.

Lemma join_occurs (sep m : string) (l : list string) :
  m ∈ l -> occurs_in m (join sep l).
Proof.
  induction l as [|s rest IH]; intros Hin; [now apply not_elem_of_nil in Hin|].
  apply elem_of_cons in Hin as [->|Hin].
  - destruct (join_cons sep s rest) as [tail ->]. now exists "", tail.
  - destruct rest as [|s' rest]; [now apply not_elem_of_nil in Hin|].
    destruct (IH Hin) as (before & after & Heq).
    exists (s +:+ sep +:+ before), after.
    change (join sep (s :: s' :: rest))
      with (s +:+ sep +:+ join sep (s' :: rest)).
    now rewrite Heq, !string_app_assoc.
Qed.

(** *** The issues list *)

Lemma append_if_app (cond : bool) (msg : string) (issues : list string) :
  append_if cond msg issues = issues ++ append_if cond msg [].
Proof.
  destruct cond; cbn; [reflexivity|now rewrite app_nil_r].
Qed.

(** The loop only appends: what is in [issues] stays, in front. *)
Lemma long_targets_app (entry_price : Q) (take_profits : list Q) :
  forall (prev_tp : Q) (idx : nat) (issues : list string),
    long_targets entry_price prev_tp idx take_profits issues
    = issues ++ long_targets entry_price prev_tp idx take_profits [].
Proof.
  induction take_profits as [|take_profit rest IH]; intros prev_tp idx issues;
    cbn [long_targets]; [now rewrite app_nil_r|].
  rewrite IH, (IH _ _ (append_if _ _ (append_if _ _ []))).
  rewrite (append_if_app _ _ (append_if _ _ issues)),
    (append_if_app _ _ issues), (append_if_app _ _ (append_if _ _ [])).
  now rewrite !app_assoc.
Qed.

Lemma long_targets_flags_prev (entry_price : Q) (take_profits : list Q) :
  forall (prev_tp : Q) (idx : nat) (issues : list string) (i : nat)
         (tp prev : Q),
    take_profits !! i = Some tp ->
    previous_price prev_tp take_profits i = Some prev ->
    tp <= prev ->
    tp_below_prev (idx + i)
      ∈ long_targets entry_price prev_tp idx take_profits issues.
Proof.
  induction take_profits as [|take_profit rest IH];
    intros prev_tp idx issues i tp prev Htp Hprev Hle; [discriminate|].
  cbn [long_targets]. destruct i as [|i].
  - injection Htp as ->. injection Hprev as ->.
    rewrite long_targets_app. apply elem_of_app. left.
    apply Qle_bool_iff in Hle. rewrite Hle, Nat.add_0_r.
    cbn. apply elem_of_app. right. apply list_elem_of_singleton. reflexivity.
  - rewrite <- Nat.add_succ_comm.
    apply (IH _ _ _ i tp prev); [exact Htp| |exact Hle].
    destruct i; exact Hprev.
Qed.

(** C7.  In a LONG setup, a target that is not above the price before it is
    flagged as not above the previous target, whether or not the targets are
    above the entry price.  The price before the first target is the entry
    price; the price before any later target is the target just before it,
    flagged or not.  The flag carries the target's 1-based index and is part
    of the returned string. *)
Theorem long_target_not_increasing_flagged
    (entry_price stop_loss : Q) (take_profits : list Q) (i : nat)
    (tp prev : Q) :
  take_profits !! i = Some tp ->
  previous_price entry_price take_profits i = Some prev ->
  tp <= prev ->
  tp_below_prev (S i)
    ∈ structural_issues LONG entry_price stop_loss take_profits
  /\ occurs_in (tp_below_prev (S i))
       (check_structural_issues LONG entry_price stop_loss take_profits).
Proof.
  intros Htp Hprev Hle.
  pose (issues := structural_issues LONG entry_price stop_loss take_profits).
  assert (Hin : tp_below_prev (S i) ∈ issues).
  { unfold issues, structural_issues.
    exact (long_targets_flags_prev entry_price take_profits entry_price 1 _
             i tp prev Htp Hprev Hle). }
  split; [exact Hin|]. unfold check_structural_issues. fold issues.
  destruct issues as [|s rest]; [now apply not_elem_of_nil in Hin|].
  now apply join_occurs.
Qed.

(** Both targets above the entry, the second below the first. *)
Lemma long_target_not_increasing_flagged_witness :
  tp_below_prev 2 ∈ structural_issues LONG 50000 49000 [52000; 51000]
  /\ occurs_in (tp_below_prev 2)
       (check_structural_issues LONG 50000 49000 [52000; 51000]).
Proof.
  apply (long_target_not_increasing_flagged 50000 49000 [52000; 51000] 1
           51000 52000).
  - reflexivity.
  - reflexivity.
  - vm_compute. discriminate.
Defined.

(** C8.  In a LONG setup whose stop loss equals the entry price, the first
    issue raised is the stop-loss flag, and the string the detector returns,
    which is the [structural_issue] of any returned result, is not the
    no-issue sentinel: it contains the stop-loss flag. *)
Theorem long_stop_at_entry_flagged (inputs : TradingInputs) :
  direction inputs = LONG ->
  stop_loss inputs == entry_price inputs ->
  head (structural_issues (direction inputs) (entry_price inputs)
          (stop_loss inputs) (take_profits inputs)) = Some sl_above_entry
  /\ check_structural_issues (direction inputs) (entry_price inputs)
       (stop_loss inputs) (take_profits inputs) <> NO_ISSUE
  /\ occurs_in sl_above_entry
       (check_structural_issues (direction inputs) (entry_price inputs)
          (stop_loss inputs) (take_profits inputs))
  /\ forall r, calculate_trading_results inputs = Return r ->
               structural_issue r <> NO_ISSUE
               /\ occurs_in sl_above_entry (structural_issue r).
Proof.
  intros Hdir Heq.
  assert (Hle : Qle_bool (entry_price inputs) (stop_loss inputs) = true).
  { apply Qle_bool_iff. rewrite Heq. apply Qle_refl. }
  assert (Hissues : exists rest,
    structural_issues (direction inputs) (entry_price inputs)
      (stop_loss inputs) (take_profits inputs) = sl_above_entry :: rest).
  { rewrite Hdir. unfold structural_issues. rewrite Hle. cbn [append_if].
    rewrite long_targets_app. now eexists. }
  destruct Hissues as [rest Hissues].
  assert (Hne : check_structural_issues (direction inputs)
                  (entry_price inputs) (stop_loss inputs)
                  (take_profits inputs) <> NO_ISSUE).
  { unfold check_structural_issues. rewrite Hissues.
    destruct (join_cons " / " sl_above_entry rest) as [tail ->].
    intros H. vm_compute in H. discriminate. }
  assert (Hocc : occurs_in sl_above_entry
                   (check_structural_issues (direction inputs)
                      (entry_price inputs) (stop_loss inputs)
                      (take_profits inputs))).
  { unfold check_structural_issues. rewrite Hissues.
    destruct (join_cons " / " sl_above_entry rest) as [tail ->].
    now exists "", tail. }
  split; [now rewrite Hissues|]. split; [exact Hne|]. split; [exact Hocc|].
  intros r Hr. apply calculate_trading_results_inv in Hr.
  destruct Hr as (_ & _ & _ & _ & _ & -> & _). now split.
Qed.

Lemma long_stop_at_entry_flagged_witness :
  exists r, calculate_trading_results stop_at_entry_inputs = Return r
            /\ structural_issue r <> NO_ISSUE
            /\ occurs_in sl_above_entry (structural_issue r).
Proof.
  destruct (calculate_trading_results stop_at_entry_inputs) as [r|e] eqn:E;
    [|vm_compute in E; discriminate].
  exists r. split; [reflexivity|].
  destruct (long_stop_at_entry_flagged stop_at_entry_inputs)
    as (_ & _ & _ & H).
  - reflexivity.
  - reflexivity.
  - now apply H.
Defined.

(** * Further properties of the code *)

(** ** Stop-loss percentage *)



(** ** Leverage and margin *)

Lemma calculate_leverage_clamp
    (position_notional risk_amount total_asset margin_usage_ratio : Q)
    (leverage effective_leverage required_margin : Q) :
  calculate_leverage position_notional risk_amount total_asset
      margin_usage_ratio
    = Return (leverage, effective_leverage, required_margin) ->
  leverage
  = clamp_leverage
      (position_notional / (total_asset * (margin_usage_ratio / 100)))
  /\ ~ leverage == 0.
Proof.
  intros H. pose proof (calculate_leverage_bounds _ _ _ _ _ _ _ H) as [Hb _].
  split; [|unfold MIN_LEVERAGE in Hb; lra].
  now apply calculate_leverage_Return in H as (_ & _ & -> & _).
Qed.

(** X2.  What Step 5 returns is consistent: the required margin times the
    leverage is the notional, and the effective leverage times the total
    asset is the notional. *)
Theorem leverage_margin_product
    (position_notional risk_amount total_asset margin_usage_ratio : Q)
    (leverage effective_leverage required_margin : Q) :
  calculate_leverage position_notional risk_amount total_asset
      margin_usage_ratio
    = Return (leverage, effective_leverage, required_margin) ->
  required_margin * leverage == position_notional
  /\ effective_leverage * total_asset == position_notional.
Proof.
  intros H. destruct (calculate_leverage_clamp _ _ _ _ _ _ _ H) as [_ Hl].
  apply calculate_leverage_Return in H as (_ & Hta & _ & -> & ->).
  split; field; assumption.
Qed.

Lemma leverage_margin_product_witness :
  exists leverage effective_leverage required_margin,
    calculate_leverage 24000 500 10000 60
      = Return (leverage, effective_leverage, required_margin)
    /\ required_margin * leverage == 24000
    /\ effective_leverage * 10000 == 24000.
Proof.
  destruct (calculate_leverage 24000 500 10000 60)
    as [[[leverage eff] req]|e] eqn:E; [|vm_compute in E; discriminate].
  exists leverage, eff, req. split; [reflexivity|].
  exact (leverage_margin_product 24000 500 10000 60 leverage eff req E).
Defined.

(** X3.  In exact rational arithmetic (the rounding of the code's floats
    left out): with a positive [min_margin], the required margin exceeds the
    margin the trader allowed exactly when the leverage had to be capped:
    when [position_notional / min_margin] is above [MAX_LEVERAGE].  The
    leverage is then [MAX_LEVERAGE]; the notional is not reduced. *)
Theorem margin_exceeded_iff_capped
    (position_notional risk_amount total_asset margin_usage_ratio : Q)
    (leverage effective_leverage required_margin : Q) :
  let min_margin := total_asset * (margin_usage_ratio / 100) in
  0 < min_margin ->
  calculate_leverage position_notional risk_amount total_asset
      margin_usage_ratio
    = Return (leverage, effective_leverage, required_margin) ->
  (min_margin < required_margin
   <-> MAX_LEVERAGE < position_notional / min_margin)
  /\ (MAX_LEVERAGE < position_notional / min_margin ->
      leverage = MAX_LEVERAGE
      /\ required_margin == position_notional / MAX_LEVERAGE).
Proof.
  intros min_margin Hpos H.
  destruct (calculate_leverage_clamp _ _ _ _ _ _ _ H) as [Hlev Hl].
  fold min_margin in Hlev.
  assert (Hprod : required_margin * leverage == position_notional).
  { apply calculate_leverage_Return in H as (_ & _ & _ & _ & ->).
    field. exact Hl. }
  assert (Hratio : position_notional / min_margin * min_margin
                   == position_notional) by (field; lra).
  set (ratio := position_notional / min_margin) in *.
  clearbody ratio min_margin.
  unfold clamp_leverage, MAX_LEVERAGE, MIN_LEVERAGE in *.
  destruct (Qle_bool ratio 150) eqn:Hmax.
  - apply Qle_bool_iff in Hmax.
    assert (Hle : required_margin <= min_margin).
    { destruct (Qlt_bool ratio 3) eqn:Hmin.
      - apply Qlt_bool_iff in Hmin. subst leverage.
        assert (0 < (3 - ratio) * min_margin)
          by (apply Qmult_lt_0_compat; lra).
        lra.
      - apply Qlt_bool_false_iff in Hmin. subst leverage.
        assert (Hr : ~ ratio == 0) by lra.
        apply (Qmult_le_r _ _ ratio); [lra|].
        rewrite Hprod, (Qmult_comm min_margin), Hratio. apply Qle_refl. }
    split; [split; intros; lra|intros; lra].
  - apply not_true_iff_false in Hmax. rewrite Qle_bool_iff in Hmax.
    apply Qnot_le_lt in Hmax. subst leverage.
    assert (0 < (ratio - 150) * min_margin)
      by (apply Qmult_lt_0_compat; lra).
    split; [split; intros; [assumption|lra]|].
    intros _. split; [reflexivity|].
    rewrite <- Hprod. field.
Qed.

Lemma margin_exceeded_iff_capped_witness :
  exists leverage effective_leverage required_margin,
    calculate_leverage 1200000 500 10000 60
      = Return (leverage, effective_leverage, required_margin)
    /\ leverage = MAX_LEVERAGE
    /\ 10000 * (60 / 100) < required_margin.
Proof.
  destruct (calculate_leverage 1200000 500 10000 60)
    as [[[leverage eff] req]|e] eqn:E; [|vm_compute in E; discriminate].
  exists leverage, eff, req. split; [reflexivity|].
  destruct (margin_exceeded_iff_capped 1200000 500 10000 60 leverage eff req)
    as [Hiff Hcap]; [reflexivity|exact E|].
  assert (Hover : MAX_LEVERAGE < 1200000 / (10000 * (60 / 100)))
    by reflexivity.
  split; [exact (proj1 (Hcap Hover))|exact (proj2 Hiff Hover)].
Defined.

Lemma clamp_leverage_Qeq (x y : Q) :
  x == y -> clamp_leverage x == clamp_leverage y.
Proof.
  intros H. unfold clamp_leverage, Qlt_bool.
  rewrite (Qleb_comp _ _ H _ _ (Qeq_refl MAX_LEVERAGE)),
    (Qleb_comp _ _ (Qeq_refl MIN_LEVERAGE) _ _ H).
  destruct (Qle_bool y MAX_LEVERAGE), (Qle_bool MIN_LEVERAGE y); cbn;
    (exact H || reflexivity).
Qed.

(** X4.  In exact rational arithmetic (the rounding of the code's floats
    left out): the position leverage of a returned result does not depend on
    the total asset: it is the clamp of
    [risk_ratio * entry_price / (sizing_denominator * margin_usage_ratio)].
    The effective leverage is
    [risk_ratio / 100 * entry_price / sizing_denominator], which depends
    neither on the total asset nor on the margin usage ratio. *)
Theorem leverage_closed_form (inputs : TradingInputs) (r : TradingResults) :
  calculate_trading_results inputs = Return r ->
  position_leverage r
  == clamp_leverage
       (risk_ratio inputs * entry_price inputs
        / (sizing_denominator inputs * margin_usage_ratio inputs))
  /\ effective_leverage r
     == risk_ratio inputs / 100 * entry_price inputs
        / sizing_denominator inputs.
Proof.
  intros H.
  pose proof (calculate_trading_results_Return_nonzero _ _ H) as Hnz.
  apply divisors_nonzero_iff in Hnz as (_ & Hden & Hmm & Hta).
  assert (Hmur : ~ margin_usage_ratio inputs == 0).
  { intros Hmur. apply Hmm. unfold min_margin. rewrite Hmur. field. }
  apply calculate_trading_results_inv in H.
  destruct H as (_ & Hsize & _ & Hlev & _).
  unfold calculate_position_size in Hsize.
  inv_bind Hsize as quantity Hq. inv_truediv Hq as Hden'.
  injection Hsize as Hn _. fold (sizing_denominator inputs) in Hq.
  destruct (calculate_leverage_clamp _ _ _ _ _ _ _ Hlev) as [-> _].
  apply calculate_leverage_Return in Hlev as (_ & _ & _ & -> & _).
  rewrite <- Hn, Hq. unfold calculate_risk_amount. split.
  - apply clamp_leverage_Qeq. field. repeat split; assumption.
  - field. split; assumption.
Qed.

Lemma leverage_closed_form_witness :
  exists r,
    calculate_trading_results example_inputs = Return r
    /\ position_leverage r
       == clamp_leverage
            (5 * 50000 / (sizing_denominator example_inputs * 60))
    /\ effective_leverage r
       == 5 / 100 * 50000 / sizing_denominator example_inputs.
Proof.
  destruct (calculate_trading_results example_inputs) as [r|e] eqn:E;
    [|vm_compute in E; discriminate].
  exists r. split; [reflexivity|].
  exact (leverage_closed_form example_inputs r E).
Defined.

(** ** Valid setups *)

Lemma valid_setup_iff (inputs : TradingInputs) :
  valid_setup inputs = true <->
  0 < total_asset inputs /\ 0 < risk_ratio inputs
  /\ 0 < margin_usage_ratio inputs /\ 0 < entry_price inputs
  /\ match direction inputs with
     | LONG => stop_loss inputs < entry_price inputs
     | SHORT => entry_price inputs < stop_loss inputs
     end.
Proof.
  unfold valid_setup, stop_on_loss_side.
  rewrite !andb_true_iff, !Qlt_bool_iff.
  destruct (direction inputs); rewrite Qlt_bool_iff; tauto.
Qed.

(** On a valid setup the sizing denominator is positive, so is the risk
    budget. *)
Lemma valid_setup_positive (inputs : TradingInputs) :
  valid_setup inputs = true ->
  0 < sizing_denominator inputs
  /\ 0 < calculate_risk_amount (total_asset inputs) (risk_ratio inputs)
  /\ 0 < min_margin inputs.
Proof.
  intros H. apply valid_setup_iff in H as (Hta & Hrr & Hmur & He & Hs).
  split; [|split].
  - unfold sizing_denominator, TAKER_FEE_RATE.
    destruct (direction inputs); lra.
  - unfold calculate_risk_amount.
    apply Qmult_lt_0_compat; [|apply Qlt_shift_div_l]; lra.
  - unfold min_margin.
    apply Qmult_lt_0_compat; [|apply Qlt_shift_div_l]; lra.
Qed.

(** X5.  In exact rational arithmetic (rounding and underflow of the code's
    floats left out): a valid setup (positive total asset, risk ratio,
    margin usage ratio and entry price, stop on the losing side) meets no
    zero divisor, so the calculation returns, and its result has a positive
    stop-loss percentage, quantity, notional, loss and required margin.
    Over binary64 a divisor of a valid setup can still round to zero: see
    [binary64_tiny_asset_raises]. *)
Theorem valid_setup_returns_positive (inputs : TradingInputs) :
  valid_setup inputs = true ->
  exists r,
    calculate_trading_results inputs = Return r
    /\ 0 < stop_loss_pct r
    /\ 0 < position_quantity r
    /\ 0 < position_notional r
    /\ 0 < actual_loss_amount r
    /\ 0 < required_margin r.
Proof.
  intros Hvalid.
  destruct (valid_setup_positive inputs Hvalid) as (Hden & Hrisk & Hmm).
  pose proof (proj1 (valid_setup_iff inputs) Hvalid)
    as (Hta & Hrr & Hmur & He & Hs).
  destruct (calculate_trading_results_returns inputs) as [r Hr].
  { apply divisors_nonzero_iff. repeat split; lra. }
  exists r. split; [exact Hr|].
  pose proof (actual_loss_amount_is_risk_amount inputs r Hr) as Hloss.
  apply calculate_trading_results_inv in Hr.
  destruct Hr as (Hsl & Hsize & _ & Hlev & _).
  assert (Hinv : 0 < / entry_price inputs) by now apply Qinv_lt_0_compat.
  assert (Hpct : 0 < stop_loss_pct r).
  { unfold calculate_stop_loss in Hsl.
    destruct (direction inputs); inv_bind Hsl as q Hq;
      inv_truediv Hq as Hnz; injection Hsl as <- _; subst q;
      unfold Qdiv; nra. }
  unfold calculate_position_size in Hsize.
  inv_bind Hsize as quantity Hq. inv_truediv Hq as Hnz.
  injection Hsize as Hn Hqty. fold (sizing_denominator inputs) in Hq.
  assert (Hquantity : 0 < quantity).
  { rewrite Hq. apply Qlt_shift_div_l; [exact Hden|]. lra. }
  assert (Hnotional : 0 < position_notional r).
  { rewrite <- Hn. apply Qmult_lt_0_compat; assumption. }
  pose proof (calculate_leverage_bounds _ _ _ _ _ _ _ Hlev) as [Hmin _].
  unfold MIN_LEVERAGE in Hmin.
  apply calculate_leverage_Return in Hlev as (_ & _ & _ & _ & Hreq).
  repeat split; try assumption.
  - now rewrite <- Hqty.
  - now rewrite Hloss.
  - rewrite Hreq. apply Qlt_shift_div_l; lra.
Qed.

Lemma valid_setup_returns_positive_witness :
  exists r,
    calculate_trading_results example_inputs = Return r
    /\ 0 < stop_loss_pct r
    /\ 0 < position_quantity r
    /\ 0 < position_notional r
    /\ 0 < actual_loss_amount r
    /\ 0 < required_margin r.
Proof.
  apply (valid_setup_returns_positive example_inputs). reflexivity.
Defined.

(** ** Per-target entries *)

Section rr_loop_lookup.
Variables (direction : Direction) (entry_price stop_loss_pct : Q).
Variables (quantity entry_fee actual_loss_with_fee : Q).

(** The loop leaves the keys below [idx] alone and writes the target at
    position [i] under the key [idx + i]; no later step overwrites it. *)
Lemma rr_loop_lookup (take_profits : list Q) :
  forall (idx : nat) (results results' : gmap nat TakeProfitResult),
    rr_loop direction entry_price stop_loss_pct quantity entry_fee
      actual_loss_with_fee idx take_profits results = Return results' ->
    (forall k : nat, (k < idx)%nat -> results' !! k = results !! k)
    /\ (forall (i : nat) (tp : Q),
          take_profits !! i = Some tp ->
          exists e,
            results' !! (idx + i)%nat = Some e
            /\ written_for direction entry_price stop_loss_pct quantity
                 entry_fee tp e).
Proof.
  induction take_profits as [|take_profit rest IH];
    intros idx results results' H; cbn [rr_loop] in H.
  - injection H as <-. split; [reflexivity|]. intros i tp Hi. discriminate.
  - inv_bind H as profit_pct Hpct. inv_bind H as rr Hrr.
    inv_bind H as ar Har. apply IH in H as [Hkeep Hwritten].
    assert (Hbelow : forall k : nat, (k < idx)%nat ->
                                     results' !! k = results !! k).
    { intros k Hk. rewrite Hkeep by lia. apply lookup_insert_ne. lia. }
    split; [exact Hbelow|]. intros [|i] tp Hi.
    + injection Hi as ->. rewrite Nat.add_0_r, Hkeep by lia.
      rewrite lookup_insert_eq. eexists. split; [reflexivity|].
      split; [reflexivity|]. cbn. intros Hpos.
      apply Qlt_bool_iff in Hpos. rewrite Hpos in Hrr.
      inv_truediv Hrr as Hnz. subst rr. f_equal.
      destruct direction; inv_bind Hpct as q Hq; inv_truediv Hq as He;
        injection Hpct as <-; now subst q.
    + rewrite <- Nat.add_succ_comm. now apply Hwritten.
Qed.
End rr_loop_lookup.

(** X6.  Step 6 returns one entry per target, under the keys 1 to N and no
    other; the entry under key [i + 1] holds the net profit of the target at
    position [i]: its gross profit less the entry fee on the notional and
    the exit fee at the target. *)
Theorem take_profit_entries_by_index (direction : Direction)
    (entry_price stop_loss : Q) (take_profits : list Q)
    (notional quantity stop_loss_pct : Q)
    (results : gmap nat TakeProfitResult) :
  calculate_rr_and_profit direction entry_price stop_loss take_profits
    notional quantity stop_loss_pct = Return results ->
  (forall idx : nat,
     is_Some (results !! idx) <-> (1 <= idx <= length take_profits)%nat)
  /\ (forall (i : nat) (tp : Q),
        take_profits !! i = Some tp ->
        exists e,
          results !! S i = Some e
          /\ profit e
             = match direction with
               | LONG => (tp - entry_price) * quantity
               | SHORT => (entry_price - tp) * quantity
               end - notional * TAKER_FEE_RATE
               - tp * quantity * TAKER_FEE_RATE).
Proof.
  intros H. split.
  - intros idx. unfold calculate_rr_and_profit in H. apply rr_loop_dom in H.
    rewrite <- elem_of_dom, H, dom_empty_L, elem_of_union, elem_of_set_seq.
    rewrite elem_of_empty. lia.
  - intros i tp Hi. unfold calculate_rr_and_profit in H.
    apply rr_loop_lookup in H as [_ H].
    destruct (H i tp Hi) as (e & He & Hprofit & _). now exists e.
Qed.

Lemma take_profit_entries_by_index_witness :
  exists results,
    calculate_rr_and_profit LONG 100 90 [110; 120] 1000 10 10
      = Return results
    /\ (is_Some (results !! 2%nat) <-> (1 <= 2 <= 2)%nat)
    /\ exists e, results !! 2%nat = Some e
                 /\ profit e
                    = (120 - 100) * 10 - 1000 * TAKER_FEE_RATE
                      - 120 * 10 * TAKER_FEE_RATE.
Proof.
  destruct (calculate_rr_and_profit LONG 100 90 [110; 120] 1000 10 10)
    as [results|e] eqn:E; [|vm_compute in E; discriminate].
  exists results. split; [reflexivity|].
  destruct (take_profit_entries_by_index LONG 100 90 [110; 120] 1000 10 10
              results E) as [Hkeys Hentries].
  split; [exact (Hkeys 2%nat)|]. exact (Hentries 1%nat 120 eq_refl).
Defined.

(** The entry of the target at position [i], as the loop wrote it. *)
Lemma calculate_rr_and_profit_written (direction : Direction)
    (entry_price stop_loss : Q) (take_profits : list Q)
    (notional quantity stop_loss_pct : Q)
    (results : gmap nat TakeProfitResult) (i : nat) (tp : Q)
    (e : TakeProfitResult) :
  calculate_rr_and_profit direction entry_price stop_loss take_profits
    notional quantity stop_loss_pct = Return results ->
  take_profits !! i = Some tp ->
  results !! S i = Some e ->
  written_for direction entry_price stop_loss_pct quantity
    (notional * TAKER_FEE_RATE) tp e
  /\ entry_guarded stop_loss_pct
       (calculate_actual_loss direction entry_price stop_loss notional
          quantity) e.
Proof.
  intros H Hi He. unfold calculate_rr_and_profit in H. split.
  - apply rr_loop_lookup in H as [_ H].
    destruct (H i tp Hi) as (e' & He' & Hw).
    change (1 + i)%nat with (S i) in He'. congruence.
  - apply rr_loop_entries in H; [|apply map_Forall_empty].
    exact (H (S i) e He).
Qed.

(** The stop-loss percentage, when Step 2 returns it. *)
Lemma calculate_stop_loss_value (direction : Direction)
    (entry_price stop_loss pct price : Q) :
  calculate_stop_loss direction entry_price stop_loss = Return (pct, price) ->
  ~ entry_price == 0
  /\ pct = match direction with
           | LONG => (entry_price - stop_loss) / entry_price * 100
           | SHORT => (stop_loss - entry_price) / entry_price * 100
           end.
Proof.
  unfold calculate_stop_loss. intros H.
  destruct direction; inv_bind H as q Hq; inv_truediv Hq as He;
    injection H as <- _; subst q; now split.
Qed.

(** X7.  In exact rational arithmetic (the rounding of the code's floats
    left out): with a positive stop-loss percentage, the theoretical ratio
    of a target is the ratio of its distance from the entry to the distance
    of the stop from the entry: [(tp - entry) / (entry - stop)] for LONG,
    [(entry - tp) / (stop - entry)] for SHORT.  Quantity, notional and fees
    play no part in it. *)
Theorem rr_ratio_is_distance_ratio (direction : Direction)
    (entry_price stop_loss : Q) (take_profits : list Q)
    (notional quantity stop_loss_pct price : Q)
    (results : gmap nat TakeProfitResult) (i : nat) (tp : Q)
    (e : TakeProfitResult) :
  calculate_stop_loss direction entry_price stop_loss
    = Return (stop_loss_pct, price) ->
  0 < stop_loss_pct ->
  calculate_rr_and_profit direction entry_price stop_loss take_profits
    notional quantity stop_loss_pct = Return results ->
  take_profits !! i = Some tp ->
  results !! S i = Some e ->
  rr_ratio e
  == match direction with
     | LONG => (tp - entry_price) / (entry_price - stop_loss)
     | SHORT => (entry_price - tp) / (stop_loss - entry_price)
     end.
Proof.
  intros Hsl Hpos H Hi He.
  destruct (calculate_rr_and_profit_written _ _ _ _ _ _ _ _ _ _ _ H Hi He)
    as [[_ Hrr] _].
  rewrite (Hrr Hpos).
  apply calculate_stop_loss_value in Hsl as [Hnz Hpct].
  assert (Hdist : ~ match direction with
                    | LONG => entry_price - stop_loss
                    | SHORT => stop_loss - entry_price
                    end == 0).
  { intros Hd. apply (Qlt_irrefl 0). rewrite Hpct in Hpos.
    destruct direction; rewrite Hd in Hpos; unfold Qdiv in Hpos;
      now rewrite !Qmult_0_l in Hpos. }
  rewrite Hpct. destruct direction; field; split; assumption.
Qed.

Lemma rr_ratio_is_distance_ratio_witness :
  exists results e,
    calculate_rr_and_profit LONG 100 90 [110; 120] 1000 10 (1000 # 100)
      = Return results
    /\ results !! 2%nat = Some e
    /\ rr_ratio e == (120 - 100) / (100 - 90).
Proof.
  destruct (calculate_rr_and_profit LONG 100 90 [110; 120] 1000 10
              (1000 # 100)) as [results|x] eqn:E;
    [|vm_compute in E; discriminate].
  destruct (results !! 2%nat) as [e|] eqn:Ee;
    [|vm_compute in E; injection E as <-; vm_compute in Ee; discriminate].
  exists results, e. split; [reflexivity|]. split; [exact Ee|].
  apply (rr_ratio_is_distance_ratio LONG 100 90 [110; 120] 1000 10
           (1000 # 100) 90 results 1 120 e);
    try reflexivity; assumption.
Defined.

(** Sign of a product with a positive factor. *)
Lemma Qmult_pos_iff (k d : Q) : 0 < k -> (0 < k * d <-> 0 < d).
Proof.
  intros Hk. split; intros H.
  - destruct (Qlt_le_dec 0 d) as [Hd|Hd]; [exact Hd|].
    exfalso. apply (Qlt_irrefl 0). apply (Qlt_le_trans _ _ _ H).
    rewrite <- (Qmult_0_r k). apply Qmult_le_l; assumption.
  - now apply Qmult_lt_0_compat.
Qed.

(** X8.  Fees lower the ratio, in exact rational arithmetic (the rounding of
    the code's floats left out).  For a positive entry price, a stop on the
    losing side and a positive quantity whose notional is
    [entry_price * quantity], the fee-adjusted ratio of a target is below
    its theoretical ratio exactly when the target is beyond the stop: above
    it for LONG, below it for SHORT. *)
Theorem fees_lower_reward_risk (direction : Direction)
    (entry_price stop_loss : Q) (take_profits : list Q)
    (quantity stop_loss_pct price : Q)
    (results : gmap nat TakeProfitResult) (i : nat) (tp : Q)
    (e : TakeProfitResult) :
  0 < entry_price ->
  stop_on_loss_side direction entry_price stop_loss = true ->
  0 < quantity ->
  calculate_stop_loss direction entry_price stop_loss
    = Return (stop_loss_pct, price) ->
  calculate_rr_and_profit direction entry_price stop_loss take_profits
    (entry_price * quantity) quantity stop_loss_pct = Return results ->
  take_profits !! i = Some tp ->
  results !! S i = Some e ->
  (actual_rr e < rr_ratio e
   <-> match direction with
       | LONG => stop_loss < tp
       | SHORT => tp < stop_loss
       end).
Proof.
  intros Hentry Hside Hq Hsl H Hi He.
  destruct (calculate_rr_and_profit_written _ _ _ _ _ _ _ _ _ _ _ H Hi He)
    as [[Hprofit Hrr] (_ & _ & Har)].
  apply calculate_stop_loss_value in Hsl as [Hnz Hpct].
  set (dist := match direction with
               | LONG => entry_price - stop_loss
               | SHORT => stop_loss - entry_price
               end).
  set (beyond := match direction with
                 | LONG => tp - stop_loss
                 | SHORT => stop_loss - tp
                 end).
  set (loss := calculate_actual_loss direction entry_price stop_loss
                 (entry_price * quantity) quantity) in *.
  assert (Hdist : 0 < dist).
  { unfold dist, stop_on_loss_side in *.
    destruct direction; apply Qlt_bool_iff in Hside; lra. }
  assert (Hloss : loss
                  == quantity
                     * (dist + (entry_price + stop_loss) * TAKER_FEE_RATE)).
  { unfold loss, dist, calculate_actual_loss. destruct direction; ring. }
  assert (Hden : 0 < dist + (entry_price + stop_loss) * TAKER_FEE_RATE).
  { unfold dist, stop_on_loss_side, TAKER_FEE_RATE in *.
    destruct direction; apply Qlt_bool_iff in Hside; lra. }
  assert (Hlosspos : 0 < loss).
  { rewrite Hloss. now apply Qmult_lt_0_compat. }
  assert (Hpctpos : 0 < stop_loss_pct).
  { assert (Hinv : 0 < / entry_price) by now apply Qinv_lt_0_compat.
    assert (Hpct' : stop_loss_pct == dist * / entry_price * 100)
      by (rewrite Hpct; unfold dist; destruct direction; reflexivity).
    rewrite Hpct'.
    repeat apply Qmult_lt_0_compat; (assumption || reflexivity). }
  set (k := 2 * TAKER_FEE_RATE * entry_price * quantity / (dist * loss)).
  assert (Hk : 0 < k).
  { unfold k. apply Qlt_shift_div_l; [now apply Qmult_lt_0_compat|].
    rewrite Qmult_0_l.
    repeat apply Qmult_lt_0_compat; (assumption || reflexivity). }
  assert (Hdiff : rr_ratio e - actual_rr e == k * beyond).
  { rewrite (Hrr Hpctpos), (Har Hlosspos), Hprofit, Hpct.
    unfold k, beyond, dist, loss, calculate_actual_loss in *.
    destruct direction; field; repeat split; lra. }
  assert (Hiff : actual_rr e < rr_ratio e <-> 0 < beyond).
  { rewrite <- (Qmult_pos_iff k beyond Hk), <- Hdiff. split; intros; lra. }
  rewrite Hiff. unfold beyond. destruct direction; split; intros; lra.
Qed.

Lemma fees_lower_reward_risk_witness :
  exists results e,
    calculate_rr_and_profit LONG 100 90 [110; 120] (100 * 10) 10
        (1000 # 100) = Return results
    /\ results !! 1%nat = Some e
    /\ actual_rr e < rr_ratio e.
Proof.
  destruct (calculate_rr_and_profit LONG 100 90 [110; 120] (100 * 10) 10
              (1000 # 100)) as [results|x] eqn:E;
    [|vm_compute in E; discriminate].
  destruct (results !! 1%nat) as [e|] eqn:Ee;
    [|vm_compute in E; injection E as <-; vm_compute in Ee; discriminate].
  exists results, e. split; [reflexivity|]. split; [exact Ee|].
  apply (fees_lower_reward_risk LONG 100 90 [110; 120] 10 (1000 # 100) 90
           results 0 110 e); try reflexivity; assumption.
Defined.

(** X9.  In exact rational arithmetic (the rounding of the code's floats
    left out): with a positive quantity, a farther target earns more: of two
    targets of one calculation, the higher one has the larger net profit for
    LONG, the lower one for SHORT. *)
Theorem farther_target_earns_more (direction : Direction)
    (entry_price stop_loss : Q) (take_profits : list Q)
    (notional quantity stop_loss_pct : Q)
    (results : gmap nat TakeProfitResult) (i j : nat) (tp_i tp_j : Q)
    (e_i e_j : TakeProfitResult) :
  0 < quantity ->
  calculate_rr_and_profit direction entry_price stop_loss take_profits
    notional quantity stop_loss_pct = Return results ->
  take_profits !! i = Some tp_i -> results !! S i = Some e_i ->
  take_profits !! j = Some tp_j -> results !! S j = Some e_j ->
  match direction with
  | LONG => tp_i < tp_j
  | SHORT => tp_j < tp_i
  end ->
  profit e_i < profit e_j.
Proof.
  intros Hq H Hi Hei Hj Hej Hfar.
  destruct (calculate_rr_and_profit_written _ _ _ _ _ _ _ _ _ _ _ H Hi Hei)
    as [[-> _] _].
  destruct (calculate_rr_and_profit_written _ _ _ _ _ _ _ _ _ _ _ H Hj Hej)
    as [[-> _] _].
  unfold TAKER_FEE_RATE. destruct direction.
  - assert (0 < (tp_j - tp_i) * quantity)
      by (apply Qmult_lt_0_compat; lra).
    lra.
  - assert (0 < (tp_i - tp_j) * quantity)
      by (apply Qmult_lt_0_compat; lra).
    lra.
Qed.

Lemma farther_target_earns_more_witness :
  exists results e1 e2,
    calculate_rr_and_profit LONG 100 90 [110; 120] 1000 10 10
      = Return results
    /\ results !! 1%nat = Some e1
    /\ results !! 2%nat = Some e2
    /\ profit e1 < profit e2.
Proof.
  destruct (calculate_rr_and_profit LONG 100 90 [110; 120] 1000 10 10)
    as [results|x] eqn:E; [|vm_compute in E; discriminate].
  destruct (results !! 1%nat) as [e1|] eqn:E1;
    [|vm_compute in E; injection E as <-; vm_compute in E1; discriminate].
  destruct (results !! 2%nat) as [e2|] eqn:E2;
    [|vm_compute in E; injection E as <-; vm_compute in E2; discriminate].
  exists results, e1, e2. repeat (split; [reflexivity || assumption|]).
  apply (farther_target_earns_more LONG 100 90 [110; 120] 1000 10 10
           results 0 1 110 120 e1 e2); try reflexivity; assumption.
Defined.

(** ** Structural issues, both directions *)

(** *** Strings *)

Lemma list_ascii_app (a b : string) :
  String.list_ascii_of_string (a +:+ b)
  = String.list_ascii_of_string a ++ String.list_ascii_of_string b.
Proof.
  induction a as [|c a IH]; [reflexivity|].
  unfold String.app in *. cbn. now rewrite IH.
Qed.

Lemma string_length_app (a b : string) :
  String.length (a +:+ b) = (String.length a + String.length b)%nat.
Proof.
  induction a as [|c a IH]; [reflexivity|].
  unfold String.app in *. cbn. now rewrite IH.
Qed.

Lemma list_ascii_inj (a b : string) :
  String.list_ascii_of_string a = String.list_ascii_of_string b -> a = b.
Proof.
  intros H. rewrite <- (String.string_of_list_ascii_of_string a),
    <- (String.string_of_list_ascii_of_string b). now rewrite H.
Qed.

Lemma string_app_inv_tail (x y a : string) : x +:+ a = y +:+ a -> x = y.
Proof.
  intros H. apply list_ascii_inj.
  apply (f_equal String.list_ascii_of_string) in H. rewrite !list_ascii_app in H.
  now apply app_inv_tail in H.
Qed.

Lemma ascii_list_eqb_refl (a : list Ascii.ascii) : ascii_list_eqb a a = true.
Proof.
  induction a as [|x a IH]; [reflexivity|].
  cbn. now rewrite Ascii.eqb_refl.
Qed.

Lemma ends_alike_app (x y a b : list Ascii.ascii) :
  x ++ a = y ++ b -> ends_alike a b = true.
Proof.
  intros H. unfold ends_alike.
  set (n := Nat.min (length a) (length b)).
  enough (Heq : drop (length a - n) a = drop (length b - n) b)
    by (rewrite Heq; apply ascii_list_eqb_refl).
  assert (Ha : drop (length x + (length a - n)) (x ++ a)
               = drop (length a - n) a) by apply drop_app_add.
  assert (Hb : drop (length y + (length b - n)) (y ++ b)
               = drop (length b - n) b) by apply drop_app_add.
  rewrite <- Ha, <- Hb, H. f_equal.
  apply (f_equal length) in H. rewrite !length_app in H. lia.
Qed.

Lemma clash_ne (a b x y : string) : clash a b = true -> x +:+ a <> y +:+ b.
Proof.
  unfold clash. intros Hclash H. apply negb_true_iff in Hclash.
  apply (f_equal String.list_ascii_of_string) in H. rewrite !list_ascii_app in H.
  apply ends_alike_app in H. congruence.
Qed.

(** A joined list of messages is at least as long as its first message. *)
Lemma join_length (sep s : string) (rest : list string) :
  (String.length s <= String.length (join sep (s :: rest)))%nat.
Proof.
  destruct (join_cons sep s rest) as [tail ->].
  rewrite string_length_app. lia.
Qed.

(** *** The two loops as one *)

Lemma long_targets_flags (entry_price : Q) (take_profits : list Q) :
  forall (prev_tp : Q) (idx : nat) (issues : list string),
    long_targets entry_price prev_tp idx take_profits issues
    = issues
      ++ flag_targets (fun tp x => Qle_bool tp x) tp_below_entry
           tp_below_prev entry_price prev_tp idx take_profits.
Proof.
  induction take_profits as [|take_profit rest IH]; intros prev_tp idx issues;
    cbn [long_targets flag_targets]; [now rewrite app_nil_r|].
  rewrite IH, app_assoc. f_equal.
  now destruct (Qle_bool take_profit entry_price),
    (Qle_bool take_profit prev_tp); cbn; rewrite ?app_nil_r, <- ?app_assoc.
Qed.

Lemma short_targets_flags (entry_price : Q) (take_profits : list Q) :
  forall (prev_tp : Q) (idx : nat) (issues : list string),
    short_targets entry_price prev_tp idx take_profits issues
    = issues
      ++ flag_targets (fun tp x => Qle_bool x tp) tp_above_entry
           tp_above_prev entry_price prev_tp idx take_profits.
Proof.
  induction take_profits as [|take_profit rest IH]; intros prev_tp idx issues;
    cbn [short_targets flag_targets]; [now rewrite app_nil_r|].
  rewrite IH, app_assoc. f_equal.
  now destruct (Qle_bool entry_price take_profit),
    (Qle_bool prev_tp take_profit); cbn; rewrite ?app_nil_r, <- ?app_assoc.
Qed.

Lemma structural_issues_flags (direction : Direction)
    (entry_price stop_loss : Q) (take_profits : list Q) :
  structural_issues direction entry_price stop_loss take_profits
  = match direction with
    | LONG =>
        append_if (Qle_bool entry_price stop_loss) sl_above_entry []
        ++ flag_targets (fun tp x => Qle_bool tp x) tp_below_entry
             tp_below_prev entry_price entry_price 1 take_profits
    | SHORT =>
        append_if (Qle_bool stop_loss entry_price) sl_below_entry []
        ++ flag_targets (fun tp x => Qle_bool x tp) tp_above_entry
             tp_above_prev entry_price entry_price 1 take_profits
    end.
Proof.
  unfold structural_issues.
  destruct direction; [apply long_targets_flags|apply short_targets_flags].
Qed.



(** Every message is longer than the no-issue sentinel. *)
Lemma flag_targets_long_messages (violates : Q -> Q -> bool)
    (entry_flag prev_flag : nat -> string) (entry_price : Q)
    (take_profits : list Q) :
  (forall n, (13 < String.length (entry_flag n))%nat) ->
  (forall n, (13 < String.length (prev_flag n))%nat) ->
  forall (prev_tp : Q) (idx : nat),
    Forall (fun m => (13 < String.length m)%nat)
      (flag_targets violates entry_flag prev_flag entry_price prev_tp idx
         take_profits).
Proof.
  intros He Hp.
  induction take_profits as [|take_profit rest IH]; intros prev_tp idx;
    cbn [flag_targets]; [constructor|].
  apply Forall_app. split; [|apply IH].
  destruct (violates take_profit prev_tp),
    (violates take_profit entry_price); cbn; repeat constructor; auto.
Qed.

Ltac long_message :=
  intros; rewrite string_length_app;
  match goal with
  | |- (_ < _ + ?n)%nat =>
      let v := eval vm_compute in n in change n with v
  end; lia.

Lemma structural_issues_long_messages (direction : Direction)
    (entry_price stop_loss : Q) (take_profits : list Q) :
  Forall (fun m => (13 < String.length m)%nat)
    (structural_issues direction entry_price stop_loss take_profits).
Proof.
  rewrite structural_issues_flags.
  destruct direction; apply Forall_app; split.
  - destruct (Qle_bool entry_price stop_loss); cbn; [|constructor].
    apply Forall_singleton. vm_compute. lia.
  - apply flag_targets_long_messages;
      unfold tp_below_entry, tp_below_prev; long_message.
  - destruct (Qle_bool stop_loss entry_price); cbn; [|constructor].
    apply Forall_singleton. vm_compute. lia.
  - apply flag_targets_long_messages;
      unfold tp_above_entry, tp_above_prev; long_message.
Qed.

Lemma check_structural_issues_nil (direction : Direction)
    (entry_price stop_loss : Q) (take_profits : list Q) :
  check_structural_issues direction entry_price stop_loss take_profits
    = NO_ISSUE
  <-> structural_issues direction entry_price stop_loss take_profits = [].
Proof.
  unfold check_structural_issues.
  pose proof (structural_issues_long_messages direction entry_price
                stop_loss take_profits) as Hlong.
  destruct (structural_issues direction entry_price stop_loss take_profits)
    as [|m rest]; [easy|].
  split; [|discriminate]. intros H. exfalso.
  apply Forall_cons in Hlong as [Hm _].
  pose proof (join_length " / " m rest) as Hjoin.
  rewrite H in Hjoin. change (String.length NO_ISSUE) with 13%nat in Hjoin.
  lia.
Qed.


(** *** Which flags are raised *)

Lemma previous_price_cons (prev tp : Q) (rest : list Q) (j : nat) :
  previous_price prev (tp :: rest) (S j) = previous_price tp rest j.
Proof. now destruct j. Qed.

(** A message is in the list exactly when a target justifies it. *)
Lemma flag_targets_elem (violates : Q -> Q -> bool)
    (entry_flag prev_flag : nat -> string) (entry_price : Q)
    (take_profits : list Q) :
  forall (prev_tp : Q) (idx : nat) (m : string),
    m ∈ flag_targets violates entry_flag prev_flag entry_price prev_tp idx
          take_profits
    <-> (exists (i : nat) (tp : Q),
           take_profits !! i = Some tp
           /\ violates tp entry_price = true
           /\ m = entry_flag (idx + i)%nat)
        \/ (exists (i : nat) (tp prev : Q),
              take_profits !! i = Some tp
              /\ previous_price prev_tp take_profits i = Some prev
              /\ violates tp prev = true
              /\ m = prev_flag (idx + i)%nat).
Proof.
  induction take_profits as [|take_profit rest IH]; intros prev_tp idx m;
    cbn [flag_targets].
  - split; [intros H; now apply not_elem_of_nil in H|].
    intros [(i & tp & Hi & _)|(i & tp & prev & Hi & _)]; discriminate.
  - rewrite elem_of_app, IH. split.
    + intros [Hhead|[(i & tp & Hi & Hv & ->)|(i & tp & p & Hi & Hp & Hv & ->)]].
      * destruct (violates take_profit prev_tp) eqn:Hprev,
          (violates take_profit entry_price) eqn:Hentry; cbn in Hhead.
        -- apply elem_of_cons in Hhead as [->|Hhead].
           ++ left. exists 0%nat, take_profit. now rewrite Nat.add_0_r.
           ++ apply list_elem_of_singleton in Hhead as ->.
              right. exists 0%nat, take_profit, prev_tp.
              now rewrite Nat.add_0_r.
        -- apply list_elem_of_singleton in Hhead as ->.
           right. exists 0%nat, take_profit, prev_tp.
           now rewrite Nat.add_0_r.
        -- apply list_elem_of_singleton in Hhead as ->.
           left. exists 0%nat, take_profit. now rewrite Nat.add_0_r.
        -- now apply not_elem_of_nil in Hhead.
      * left. exists (S i), tp. now rewrite <- Nat.add_succ_comm.
      * right. exists (S i), tp, p.
        now rewrite (previous_price_cons prev_tp take_profit rest i),
          <- Nat.add_succ_comm.
    + intros [(i & tp & Hi & Hv & ->)|(i & tp & p & Hi & Hp & Hv & ->)].
      * destruct i as [|i].
        -- injection Hi as ->. left. rewrite Hv, Nat.add_0_r.
           destruct (violates tp prev_tp); cbn;
             [apply elem_of_cons; now left|now apply list_elem_of_singleton].
        -- right. left. exists i, tp. now rewrite Nat.add_succ_comm.
      * destruct i as [|i].
        -- injection Hi as ->. injection Hp as ->. left.
           rewrite Hv, Nat.add_0_r.
           destruct (violates tp entry_price); cbn;
             [apply elem_of_cons; right|]; now apply list_elem_of_singleton.
        -- right. right. exists i, tp, p.
           now rewrite <- (previous_price_cons prev_tp take_profit rest i),
             Nat.add_succ_comm.
Qed.

(** With messages that tell the kind of flag and the target apart, each
    flag is in the list exactly on its own violation. *)
Lemma flags_exact (violates : Q -> Q -> bool) (stop_flag : string)
    (entry_flag prev_flag : nat -> string) (stop_violated : bool)
    (entry_price : Q) (take_profits : list Q) (i : nat) :
  (forall n, stop_flag <> entry_flag n) ->
  (forall n, stop_flag <> prev_flag n) ->
  (forall n k, entry_flag n <> prev_flag k) ->
  (forall n k, entry_flag n = entry_flag k -> n = k) ->
  (forall n k, prev_flag n = prev_flag k -> n = k) ->
  let issues :=
    append_if stop_violated stop_flag []
    ++ flag_targets violates entry_flag prev_flag entry_price entry_price 1
         take_profits in
  (stop_flag ∈ issues <-> stop_violated = true)
  /\ (entry_flag (S i) ∈ issues
      <-> exists tp, take_profits !! i = Some tp
                     /\ violates tp entry_price = true)
  /\ (prev_flag (S i) ∈ issues
      <-> exists tp prev,
            take_profits !! i = Some tp
            /\ previous_price entry_price take_profits i = Some prev
            /\ violates tp prev = true).
Proof.
  intros Hse Hsp Hep Hee Hpp issues. unfold issues.
  assert (Hstop : forall m, m ∈ append_if stop_violated stop_flag []
                            <-> stop_violated = true /\ m = stop_flag).
  { intros m. destruct stop_violated; cbn.
    - rewrite list_elem_of_singleton. tauto.
    - split; [intros H; now apply not_elem_of_nil in H|now intros [? _]]. }
  repeat split; rewrite elem_of_app, Hstop, flag_targets_elem.
  - intros [[H _]|[(k & tp & _ & _ & H)|(k & tp & p & _ & _ & _ & H)]];
      [exact H|now apply Hse in H|now apply Hsp in H].
  - intros H. now left.
  - intros [[_ H]|[(k & tp & Hk & Hv & H)|(k & tp & p & _ & _ & _ & H)]].
    + symmetry in H. now apply Hse in H.
    + apply Hee in H. injection H as ->. now exists tp.
    + now apply Hep in H.
  - intros (tp & Hi & Hv). right. left. now exists i, tp.
  - intros [[_ H]|[(k & tp & _ & _ & H)|(k & tp & p & Hk & Hp & Hv & H)]].
    + symmetry in H. now apply Hsp in H.
    + symmetry in H. now apply Hep in H.
    + apply Hpp in H. injection H as ->. now exists tp, p.
  - intros (tp & p & Hi & Hp & Hv). right. right. now exists i, tp, p.
Qed.

(** The messages of the detector tell the kind of flag and the target
    apart. *)
Lemma flag_injective (suffix : string) (n k : nat) :
  pretty n +:+ suffix = pretty k +:+ suffix -> n = k.
Proof.
  intros H. apply string_app_inv_tail in H. exact (inj pretty n k H).
Qed.

Ltac clashing :=
  intros;
  lazymatch goal with
  | |- _ +:+ _ <> _ +:+ _ => idtac
  | |- ?s <> _ +:+ _ => change s with ("" +:+ s)
  end;
  apply clash_ne; vm_compute; reflexivity.

(** X11.  In a LONG setup each flag is raised exactly on its own violation:
    the stop-loss flag when [entry_price <= stop_loss]; the below-entry flag
    of target [i + 1] when that target exists and is [<= entry_price]; its
    below-previous flag when it exists and is [<=] the price before it (the
    entry price for the first target, the target before it otherwise). *)
Theorem long_flags_exact (entry_price stop_loss : Q)
    (take_profits : list Q) (i : nat) :
  let issues := structural_issues LONG entry_price stop_loss take_profits in
  (sl_above_entry ∈ issues <-> entry_price <= stop_loss)
  /\ (tp_below_entry (S i) ∈ issues
      <-> exists tp, take_profits !! i = Some tp /\ tp <= entry_price)
  /\ (tp_below_prev (S i) ∈ issues
      <-> exists tp prev,
            take_profits !! i = Some tp
            /\ previous_price entry_price take_profits i = Some prev
            /\ tp <= prev).
Proof.
  intros issues. unfold issues. rewrite structural_issues_flags.
  rewrite <- Qle_bool_iff.
  setoid_rewrite <- Qle_bool_iff.
  apply (flags_exact (fun tp x => Qle_bool tp x) sl_above_entry
           tp_below_entry tp_below_prev).
  - unfold sl_above_entry, tp_below_entry. clashing.
  - unfold sl_above_entry, tp_below_prev. clashing.
  - unfold tp_below_entry, tp_below_prev. clashing.
  - intros n k. apply flag_injective.
  - intros n k. apply flag_injective.
Qed.

(** X12.  In a SHORT setup, the mirror image: the stop-loss flag is raised
    exactly when [stop_loss <= entry_price]; the above-entry flag of target
    [i + 1] when that target exists and is [>= entry_price]; its
    above-previous flag when it exists and is [>=] the price before it. *)
Theorem short_flags_exact (entry_price stop_loss : Q)
    (take_profits : list Q) (i : nat) :
  let issues := structural_issues SHORT entry_price stop_loss take_profits in
  (sl_below_entry ∈ issues <-> stop_loss <= entry_price)
  /\ (tp_above_entry (S i) ∈ issues
      <-> exists tp, take_profits !! i = Some tp /\ entry_price <= tp)
  /\ (tp_above_prev (S i) ∈ issues
      <-> exists tp prev,
            take_profits !! i = Some tp
            /\ previous_price entry_price take_profits i = Some prev
            /\ prev <= tp).
Proof.
  intros issues. unfold issues. rewrite structural_issues_flags.
  rewrite <- Qle_bool_iff.
  setoid_rewrite <- Qle_bool_iff.
  apply (flags_exact (fun tp x => Qle_bool x tp) sl_below_entry
           tp_above_entry tp_above_prev).
  - unfold sl_below_entry, tp_above_entry. clashing.
  - unfold sl_below_entry, tp_above_prev. clashing.
  - unfold tp_above_entry, tp_above_prev. clashing.
  - intros n k. apply flag_injective.
  - intros n k. apply flag_injective.
Qed.

(** ** Overall judgment *)



(** X14.  In a returned result the size tag never appears: the leverage was
    clamped, so the overall judgment only says whether the stop must be
    adjusted.  It is the sentinel when there is no structural issue and the
    stop is not wider than 5%, the stop tag twice when both checks fire, and
    the stop tag once otherwise. *)
Theorem overall_judgment_of_result (inputs : TradingInputs)
    (r : TradingResults) :
  calculate_trading_results inputs = Return r ->
  overall_judgment r
  = match String.eqb (structural_issue r) NO_ISSUE,
          Qlt_bool 5 (stop_loss_pct r) with
    | true, false => NO_ISSUE
    | false, true => SL_ADJUST +:+ " / " +:+ SL_ADJUST
    | _, _ => SL_ADJUST
    end.
Proof.
  intros H. apply calculate_trading_results_inv in H.
  destruct H as (_ & _ & _ & Hlev & _ & _ & -> & _).
  apply calculate_leverage_bounds in Hlev as [Hmin Hmax].
  apply Qlt_bool_false_iff in Hmin, Hmax.
  unfold judge_overall, below_min_tight_stop. rewrite Hmin, Hmax. cbn [andb].
  now destruct (String.eqb (structural_issue r) NO_ISSUE),
    (Qlt_bool 5 (stop_loss_pct r)).
Qed.

Lemma overall_judgment_of_result_witness :
  exists r,
    calculate_trading_results inverted_stop_inputs = Return r
    /\ overall_judgment r = SL_ADJUST.
Proof.
  destruct (calculate_trading_results inverted_stop_inputs) as [r|e] eqn:E;
    [|vm_compute in E; discriminate].
  exists r. split; [reflexivity|].
  rewrite (overall_judgment_of_result inverted_stop_inputs r E).
  vm_compute in E. injection E as <-. vm_compute. reflexivity.
Defined.

(** ** Sizing *)

(** X15.  In exact rational arithmetic (rounding, overflow and underflow of
    the code's floats left out): the position is proportional to the risk
    budget.  Where sizing returns for a risk amount, it returns for [k]
    times that amount, with [k] times the quantity and [k] times the
    notional. *)
Theorem position_size_scales_with_risk (direction : Direction)
    (entry_price stop_loss risk_amount k notional quantity : Q) :
  calculate_position_size direction entry_price stop_loss risk_amount
    = Return (notional, quantity) ->
  exists notional' quantity',
    calculate_position_size direction entry_price stop_loss
        (k * risk_amount) = Return (notional', quantity')
    /\ quantity' == k * quantity
    /\ notional' == k * notional.
Proof.
  unfold calculate_position_size. intros H.
  inv_bind H as q Hq. inv_truediv Hq as Hden. injection H as <- <-.
  rewrite (truediv_Return _ _ Hden). cbn. eexists _, _.
  split; [reflexivity|]. subst q. split; field; exact Hden.
Qed.

Lemma position_size_scales_with_risk_witness :
  exists notional quantity notional' quantity',
    calculate_position_size LONG 50000 49000 500 = Return (notional, quantity)
    /\ calculate_position_size LONG 50000 49000 (2 * 500)
       = Return (notional', quantity')
    /\ quantity' == 2 * quantity
    /\ notional' == 2 * notional.
Proof.
  destruct (calculate_position_size LONG 50000 49000 500)
    as [[notional quantity]|e] eqn:E; [|vm_compute in E; discriminate].
  destruct (position_size_scales_with_risk LONG 50000 49000 500 2 notional
              quantity E) as (notional' & quantity' & H' & Hq & Hn).
  now exists notional, quantity, notional', quantity'.
Defined.

(** ** Ratios of a setup without structural issue *)

(** Without structural issue, every target is beyond the price before it,
    and the stop is on the losing side. *)
Lemma no_issue_order (direction : Direction) (entry_price stop_loss : Q)
    (take_profits : list Q) :
  check_structural_issues direction entry_price stop_loss take_profits
    = NO_ISSUE ->
  stop_on_loss_side direction entry_price stop_loss = true
  /\ forall (i : nat) (tp prev : Q),
       take_profits !! i = Some tp ->
       previous_price entry_price take_profits i = Some prev ->
       match direction with
       | LONG => prev < tp
       | SHORT => tp < prev
       end.
Proof.
  intros H. apply check_structural_issues_nil in H.
  rewrite structural_issues_flags in H. unfold stop_on_loss_side.
  destruct direction; apply app_eq_nil in H as [Hstop Hflags].
  - split.
    + apply Qlt_bool_iff. destruct (Qle_bool entry_price stop_loss) eqn:Hs;
        [discriminate|].
      apply not_true_iff_false in Hs. rewrite Qle_bool_iff in Hs.
      now apply Qnot_le_lt.
    + intros i tp prev Hi Hprev. apply Qnot_le_lt. intros Hle.
      apply Qle_bool_iff in Hle.
      assert (Hin : tp_below_prev (1 + i)
                      ∈ flag_targets (fun tp x => Qle_bool tp x)
                          tp_below_entry tp_below_prev entry_price
                          entry_price 1 take_profits)
        by (apply flag_targets_elem; right; now exists i, tp, prev).
      rewrite Hflags in Hin. now apply not_elem_of_nil in Hin.
  - split.
    + apply Qlt_bool_iff. destruct (Qle_bool stop_loss entry_price) eqn:Hs;
        [discriminate|].
      apply not_true_iff_false in Hs. rewrite Qle_bool_iff in Hs.
      now apply Qnot_le_lt.
    + intros i tp prev Hi Hprev. apply Qnot_le_lt. intros Hle.
      apply Qle_bool_iff in Hle.
      assert (Hin : tp_above_prev (1 + i)
                      ∈ flag_targets (fun tp x => Qle_bool x tp)
                          tp_above_entry tp_above_prev entry_price
                          entry_price 1 take_profits)
        by (apply flag_targets_elem; right; now exists i, tp, prev).
      rewrite Hflags in Hin. now apply not_elem_of_nil in Hin.
Qed.

(** X16.  In exact rational arithmetic (the rounding of the code's floats
    left out): for a positive entry price and a setup the detector finds no
    issue with, the theoretical ratios are positive and grow from one
    target to the next: the first target's ratio is above 0 and every later target's
    ratio is above the ratio of the target before it. *)
Theorem no_issue_ratios_increase (direction : Direction)
    (entry_price stop_loss : Q) (take_profits : list Q)
    (notional quantity stop_loss_pct price : Q)
    (results : gmap nat TakeProfitResult) :
  0 < entry_price ->
  check_structural_issues direction entry_price stop_loss take_profits
    = NO_ISSUE ->
  calculate_stop_loss direction entry_price stop_loss
    = Return (stop_loss_pct, price) ->
  calculate_rr_and_profit direction entry_price stop_loss take_profits
    notional quantity stop_loss_pct = Return results ->
  (forall e, results !! 1%nat = Some e -> 0 < rr_ratio e)
  /\ (forall (i : nat) (e_i e_j : TakeProfitResult),
        results !! S i = Some e_i ->
        results !! S (S i) = Some e_j ->
        rr_ratio e_i < rr_ratio e_j).
Proof.
  intros Hentry Hissue Hsl H.
  apply no_issue_order in Hissue as [Hside Horder].
  assert (Hinv : 0 < / entry_price) by now apply Qinv_lt_0_compat.
  apply calculate_stop_loss_value in Hsl as [Hnz Hpct].
  assert (Hpos : 0 < stop_loss_pct).
  { rewrite Hpct. unfold stop_on_loss_side in Hside.
    destruct direction; apply Qlt_bool_iff in Hside; unfold Qdiv; nra. }
  assert (Hinvpct : 0 < / stop_loss_pct) by now apply Qinv_lt_0_compat.
  assert (Htarget : forall (i : nat) (e : TakeProfitResult),
    results !! S i = Some e ->
    exists tp, take_profits !! i = Some tp
               /\ rr_ratio e
                  = match direction with
                    | LONG => (tp - entry_price) / entry_price * 100
                    | SHORT => (entry_price - tp) / entry_price * 100
                    end / stop_loss_pct).
  { intros i e He.
    assert (Hsome : is_Some (take_profits !! i)).
    { apply lookup_lt_is_Some.
      pose proof (calculate_rr_and_profit_dom _ _ _ _ _ _ _ _ H (S i))
        as Hdom.
      destruct (proj1 Hdom (mk_is_Some _ _ He)). lia. }
    destruct Hsome as [tp Hi]. exists tp. split; [exact Hi|].
    destruct (calculate_rr_and_profit_written _ _ _ _ _ _ _ _ _ _ _ H Hi He)
      as [[_ Hrr] _].
    exact (Hrr Hpos). }
  split.
  - intros e He. destruct (Htarget 0%nat e He) as (tp & Hi & ->).
    pose proof (Horder 0%nat tp entry_price Hi eq_refl) as Hfar.
    unfold Qdiv. destruct direction;
      repeat apply Qmult_lt_0_compat; (assumption || reflexivity || lra).
  - intros i e_i e_j Hei Hej.
    destruct (Htarget i e_i Hei) as (tp_i & Hi & ->).
    destruct (Htarget (S i) e_j Hej) as (tp_j & Hj & ->).
    pose proof (Horder (S i) tp_j tp_i Hj Hi) as Hfar.
    unfold Qdiv. apply Qmult_lt_compat_r; [exact Hinvpct|].
    destruct direction;
      (apply Qmult_lt_compat_r; [reflexivity|];
       apply Qmult_lt_compat_r; [exact Hinv|]; lra).
Qed.

Lemma no_issue_ratios_increase_witness :
  exists results e1 e2,
    calculate_rr_and_profit LONG 100 90 [110; 120] 1000 10 (1000 # 100)
      = Return results
    /\ results !! 1%nat = Some e1
    /\ results !! 2%nat = Some e2
    /\ 0 < rr_ratio e1
    /\ rr_ratio e1 < rr_ratio e2.
Proof.
  destruct (calculate_rr_and_profit LONG 100 90 [110; 120] 1000 10
              (1000 # 100)) as [results|x] eqn:E;
    [|vm_compute in E; discriminate].
  destruct (results !! 1%nat) as [e1|] eqn:E1;
    [|vm_compute in E; injection E as <-; vm_compute in E1; discriminate].
  destruct (results !! 2%nat) as [e2|] eqn:E2;
    [|vm_compute in E; injection E as <-; vm_compute in E2; discriminate].
  exists results, e1, e2. repeat (split; [reflexivity || assumption|]).
  destruct (no_issue_ratios_increase LONG 100 90 [110; 120] 1000 10
              (1000 # 100) 90 results) as [Hfirst Hnext];
    [reflexivity|vm_compute; reflexivity|reflexivity|exact E|].
  split; [exact (Hfirst e1 E1)|exact (Hnext 0%nat e1 e2 E1 E2)].
Defined.

(** ** The results table *)

Section presentation_facts.
Variables (format_f format_grouped_f : nat -> Q -> string).

Abbreviation values_of_key :=
  (values_of_key format_f format_grouped_f).

Lemma elem_of_sorted_keys (take_profit_results : gmap nat TakeProfitResult)
    (k : nat) :
  k ∈ sorted_keys take_profit_results
  <-> is_Some (take_profit_results !! k).
Proof.
  unfold sorted_keys.
  now rewrite merge_sort_Permutation, elem_of_elements, elem_of_dom.
Qed.

Lemma length_sorted_keys (take_profit_results : gmap nat TakeProfitResult) :
  length (sorted_keys take_profit_results) = size take_profit_results.
Proof.
  unfold sorted_keys. rewrite merge_sort_Permutation.
  rewrite <- size_dom. reflexivity.
Qed.

(** Over keys of the dictionary the loop never meets a missing key, and
    appends the rows of the keys in their order. *)
Lemma table_target_rows_Some
    (take_profit_results : gmap nat TakeProfitResult) (keys : list nat) :
  (forall k, k ∈ keys -> is_Some (take_profit_results !! k)) ->
  forall items values : list string,
    table_target_rows format_f format_grouped_f take_profit_results keys
      items values
    = Some (items ++ flat_map target_items keys,
            values ++ flat_map (values_of_key take_profit_results) keys).
Proof.
  induction keys as [|k rest IH]; intros Hkeys items values;
    cbn [table_target_rows flat_map].
  - now rewrite !app_nil_r.
  - destruct (Hkeys k) as [e He]; [apply elem_of_cons; now left|].
    rewrite He. cbn. rewrite IH.
    + unfold values_of_key at 2. rewrite He. cbn [from_option].
      now rewrite <- !app_assoc.
    + intros k' Hk'. apply Hkeys, elem_of_cons. now right.
Qed.

Lemma length_flat_map_3 {A : Type} (f : A -> list string) (l : list A) :
  (forall x, x ∈ l -> length (f x) = 3%nat) ->
  length (flat_map f l) = (3 * length l)%nat.
Proof.
  induction l as [|x l IH]; intros H; [reflexivity|].
  cbn [flat_map]. rewrite length_app, IH, H.
  - cbn [length]. lia.
  - apply elem_of_cons. now left.
  - intros y Hy. apply H, elem_of_cons. now right.
Qed.

(** X17.  The results table is built without a missing key, whatever the
    result record, and its two columns have the same number of rows:
    thirteen and three per entry of [take_profit_results]. *)
Theorem results_table_columns (results : TradingResults)
    (inputs : TradingInputs) :
  exists items values : list string,
    create_results_table format_f format_grouped_f results inputs
      = Some (items, values)
    /\ length items = length values
    /\ length items = (13 + 3 * size (take_profit_results results))%nat.
Proof.
  unfold create_results_table.
  rewrite table_target_rows_Some
    by (intros k Hk; now apply elem_of_sorted_keys).
  cbn [mbind option_bind]. eexists _, _. split; [reflexivity|].
  assert (Hitems : length (flat_map target_items
                             (sorted_keys (take_profit_results results)))
                   = (3 * size (take_profit_results results))%nat).
  { rewrite length_flat_map_3 by reflexivity.
    now rewrite length_sorted_keys. }
  assert (Hvalues : length (flat_map
                              (values_of_key (take_profit_results results))
                              (sorted_keys (take_profit_results results)))
                    = (3 * size (take_profit_results results))%nat).
  { rewrite length_flat_map_3; [now rewrite length_sorted_keys|].
    intros k Hk. apply elem_of_sorted_keys in Hk as [e He].
    unfold values_of_key. now rewrite He. }
  rewrite !length_app, Hitems, Hvalues.
  unfold leading_items, leading_values, trailing_items, trailing_values.
  cbn [length]. lia.
Qed.

(** The keys [1 .. N], sorted, are the list [1; ...; N]. *)
Lemma Sorted_seq (j n : nat) : Sorted (≤)%nat (seq j n).
Proof.
  revert j. induction n as [|n IH]; intros j; cbn; constructor.
  - apply IH.
  - destruct n; cbn; constructor. lia.
Qed.

Lemma sorted_keys_seq (take_profit_results : gmap nat TakeProfitResult)
    (n : nat) :
  (forall k : nat, is_Some (take_profit_results !! k)
                   <-> (1 <= k <= n)%nat) ->
  sorted_keys take_profit_results = seq 1 n.
Proof.
  intros Hdom. apply (Sorted_unique (≤)%nat).
  - apply Sorted_merge_sort. apply _.
  - apply Sorted_seq.
  - unfold sorted_keys. rewrite merge_sort_Permutation.
    apply NoDup_Permutation; [apply NoDup_elements|apply NoDup_seq|].
    intros k. rewrite elem_of_elements, elem_of_dom, Hdom, elem_of_seq. lia.
Qed.

(** X18.  In the table of a returned result the targets come in ascending
    order, whatever the order the dictionary keeps them in: the item column
    is the seven leading labels, then the three labels of target 1, of
    target 2, up to target N, then the six trailing labels, and the value
    column lists the formatted entries in the same order. *)
Theorem results_table_targets_ascending (inputs : TradingInputs)
    (r : TradingResults) :
  calculate_trading_results inputs = Return r ->
  create_results_table format_f format_grouped_f r inputs
  = Some
      (leading_items
       ++ flat_map target_items (seq 1 (length (take_profits inputs)))
       ++ trailing_items,
       leading_values format_f format_grouped_f r
       ++ flat_map (values_of_key (take_profit_results r))
            (seq 1 (length (take_profits inputs)))
       ++ trailing_values format_f format_grouped_f r).
Proof.
  intros H. apply calculate_trading_results_inv in H.
  destruct H as (_ & _ & _ & _ & Htpr & _).
  pose proof (calculate_rr_and_profit_dom _ _ _ _ _ _ _ _ Htpr) as Hdom.
  unfold create_results_table.
  rewrite table_target_rows_Some
    by (intros k Hk; now apply elem_of_sorted_keys).
  rewrite (sorted_keys_seq _ _ Hdom). cbn [mbind option_bind].
  now rewrite <- !app_assoc.
Qed.

End presentation_facts.

Lemma results_table_targets_ascending_witness :
  exists r,
    calculate_trading_results example_inputs = Return r
    /\ create_results_table fraction_f fraction_f r example_inputs
       = Some
           (leading_items ++ flat_map target_items [1; 2]%nat
            ++ trailing_items,
            leading_values fraction_f fraction_f r
            ++ flat_map
                 (values_of_key fraction_f fraction_f
                    (take_profit_results r)) [1; 2]%nat
            ++ trailing_values fraction_f fraction_f r).
Proof.
  destruct (calculate_trading_results example_inputs) as [r|e] eqn:E;
    [|vm_compute in E; discriminate].
  exists r. split; [reflexivity|].
  exact (results_table_targets_ascending fraction_f fraction_f
           example_inputs r E).
Defined.

(** ** The alert message *)

Lemma occurs_in_app_l (m s a : string) :
  occurs_in m s -> occurs_in m (a +:+ s).
Proof.
  intros (before & after & ->). exists (a +:+ before), after.
  now rewrite string_app_assoc.
Qed.

Lemma occurs_in_app_r (m s b : string) :
  occurs_in m s -> occurs_in m (s +:+ b).
Proof.
  intros (before & after & ->). exists before, (after +:+ b).
  now rewrite !string_app_assoc.
Qed.

Section alert_facts.
Variable format_f : nat -> Q -> string.

Lemma alert_tp_lines_app (take_profits : list Q) :
  forall (idx : nat) (tp_lines : list string),
    alert_tp_lines format_f idx take_profits tp_lines
    = tp_lines ++ alert_tp_lines format_f idx take_profits [].
Proof.
  induction take_profits as [|tp rest IH]; intros idx tp_lines;
    cbn [alert_tp_lines]; [now rewrite app_nil_r|].
  now rewrite IH, (IH _ ([] ++ _)), app_nil_l, app_assoc.
Qed.

Lemma alert_tp_lines_elem (take_profits : list Q) :
  forall (idx : nat) (tp_lines : list string) (i : nat) (tp : Q),
    take_profits !! i = Some tp ->
    "• TP" +:+ pretty (idx + i)%nat +:+ " : " +:+ format_f 2 tp
      ∈ alert_tp_lines format_f idx take_profits tp_lines.
Proof.
  induction take_profits as [|tp' rest IH]; intros idx tp_lines i tp Hi;
    [discriminate|].
  cbn [alert_tp_lines]. destruct i as [|i].
  - injection Hi as ->. rewrite alert_tp_lines_app, Nat.add_0_r.
    apply elem_of_app. left. apply elem_of_app. right.
    now apply list_elem_of_singleton.
  - rewrite <- Nat.add_succ_comm. now apply IH.
Qed.

(** X19.  Every target of the inputs has its line in the alert message:
    its 1-based number and its price formatted to two decimals. *)
Theorem alert_mentions_every_target (results : TradingResults)
    (inputs : TradingInputs) (i : nat) (tp : Q) :
  take_profits inputs !! i = Some tp ->
  occurs_in ("• TP" +:+ pretty (S i) +:+ " : " +:+ format_f 2 tp)
    (generate_alert_message format_f results inputs).
Proof.
  intros Hi. unfold generate_alert_message.
  do 9 apply occurs_in_app_l. apply occurs_in_app_r.
  destruct (alert_tp_lines format_f 1 (take_profits inputs) []) as [|l ls]
    eqn:E.
  - pose proof (alert_tp_lines_elem (take_profits inputs) 1 [] i tp Hi) as H.
    rewrite E in H. now apply not_elem_of_nil in H.
  - apply join_occurs. rewrite <- E.
    exact (alert_tp_lines_elem (take_profits inputs) 1 [] i tp Hi).
Qed.
End alert_facts.

Lemma alert_mentions_every_target_witness :
  exists r,
    calculate_trading_results example_inputs = Return r
    /\ occurs_in ("• TP2 : 52000/1")
         (generate_alert_message fraction_f r example_inputs).
Proof.
  destruct (calculate_trading_results example_inputs) as [r|e] eqn:E;
    [|vm_compute in E; discriminate].
  exists r. split; [reflexivity|].
  exact (alert_mentions_every_target fraction_f r example_inputs 1 52000
           eq_refl).
Defined.

(** ** Further edge behaviour *)

(** X20.  In exact rational arithmetic (the rounding of the code's floats
    left out): when the ratio [position_notional / min_margin] needs no
    clamping (it lies between [MIN_LEVERAGE] and [MAX_LEVERAGE]), the
    leverage is that ratio and the required margin is exactly [min_margin],
    the margin the trader allowed. *)
Theorem unclamped_leverage_uses_min_margin
    (position_notional risk_amount total_asset margin_usage_ratio : Q)
    (leverage effective_leverage required_margin : Q) :
  let min_margin := total_asset * (margin_usage_ratio / 100) in
  calculate_leverage position_notional risk_amount total_asset
      margin_usage_ratio
    = Return (leverage, effective_leverage, required_margin) ->
  MIN_LEVERAGE <= position_notional / min_margin <= MAX_LEVERAGE ->
  leverage = position_notional / min_margin
  /\ required_margin == min_margin.
Proof.
  intros min_margin H [Hmin Hmax].
  destruct (calculate_leverage_clamp _ _ _ _ _ _ _ H) as [Hlev Hl].
  fold min_margin in Hlev.
  apply calculate_leverage_Return in H as (Hmm & _ & _ & _ & Hreq).
  fold min_margin in Hmm.
  assert (Hclamp : clamp_leverage (position_notional / min_margin)
                   = position_notional / min_margin).
  { unfold clamp_leverage.
    apply Qle_bool_iff in Hmax. apply Qlt_bool_false_iff in Hmin.
    now rewrite Hmax, Hmin. }
  rewrite Hclamp in Hlev. split; [exact Hlev|].
  rewrite Hreq, Hlev. unfold MIN_LEVERAGE in Hmin.
  assert (Hn : ~ position_notional == 0).
  { intros Hn. rewrite Hn in Hmin. unfold Qdiv in Hmin.
    rewrite Qmult_0_l in Hmin. lra. }
  field. split; assumption.
Qed.

Lemma unclamped_leverage_uses_min_margin_witness :
  exists leverage effective_leverage required_margin,
    calculate_leverage 24000 500 10000 60
      = Return (leverage, effective_leverage, required_margin)
    /\ leverage = 24000 / (10000 * (60 / 100))
    /\ required_margin == 10000 * (60 / 100).
Proof.
  destruct (calculate_leverage 24000 500 10000 60)
    as [[[leverage eff] req]|e] eqn:E; [|vm_compute in E; discriminate].
  exists leverage, eff, req. split; [reflexivity|].
  apply (unclamped_leverage_uses_min_margin 24000 500 10000 60 leverage eff
           req E).
  split; vm_compute; discriminate.
Defined.

(** X21.  Step 6 raises exactly when the entry price is zero and there is at
    least one target: its only unguarded division is the profit percentage
    of a target.  With no target it returns the empty dictionary even for a
    zero entry price. *)
Theorem rr_and_profit_raises_iff (direction : Direction)
    (entry_price stop_loss : Q) (take_profits : list Q)
    (notional quantity stop_loss_pct : Q) :
  calculate_rr_and_profit direction entry_price stop_loss take_profits
    notional quantity stop_loss_pct = Raise ZeroDivisionError
  <-> entry_price == 0 /\ take_profits <> [].
Proof.
  split.
  - intros H. split.
    + destruct (Qeq_dec entry_price 0) as [He|He]; [exact He|].
      destruct (calculate_rr_and_profit_returns direction entry_price
                  stop_loss take_profits notional quantity stop_loss_pct He)
        as [results Hres].
      congruence.
    + intros ->. discriminate H.
  - intros [He Hne]. destruct take_profits as [|tp rest]; [contradiction|].
    unfold calculate_rr_and_profit. cbn [rr_loop].
    now destruct direction; rewrite (truediv_Raise _ _ He).
Qed.

(** * The faults of the code, over binary64 *)

Section binary64_facts.
Import Floats.
Local Open Scope float_scope.
#[local] Set Warnings "-inexact-float".

(** ** Comparisons of floats *)

(** A float above zero does not compare equal to zero. *)
Lemma float_positive_nonzero (y : float) :
  (0 <? y) = true -> (y =? 0) = false.
Proof.
  rewrite ltb_spec, eqb_spec.
  change (Prim2SF 0) with (S754_zero false).
  destruct (Prim2SF y) as [s|s| |s m e]; try destruct s; cbn; congruence.
Qed.

(** A float that is at most [150] and not below [3] is not zero. *)
Lemma float_in_range_nonzero (l : float) :
  (l <=? 150) = true -> (l <? 3) = false -> (l =? 0) = false.
Proof.
  rewrite leb_spec, ltb_spec, eqb_spec.
  change (Prim2SF 0) with (S754_zero false).
  let c := eval vm_compute in (Prim2SF 3) in change (Prim2SF 3) with c.
  intros Hle Hlt.
  destruct (Prim2SF l) as [s|s| |s m e].
  - destruct s; vm_compute in Hlt; discriminate.
  - destruct s; reflexivity.
  - vm_compute in Hle. discriminate.
  - destruct s; reflexivity.
Qed.

(** ** The steps, by their divisors *)

Lemma binary64_truediv_Return (x y : float) :
  (y =? 0) = false -> Binary64.truediv x y = Return (x / y).
Proof.
  unfold Binary64.truediv. now intros ->.
Qed.

Lemma binary64_truediv_Raise (x y : float) :
  (y =? 0) = true -> Binary64.truediv x y = Raise ZeroDivisionError.
Proof.
  unfold Binary64.truediv. now intros ->.
Qed.

(** Step 1 raises exactly on an entry price that is zero. *)
Lemma binary64_calculate_stop_loss_cases (direction : Direction)
    (entry_price stop_loss : float) :
  if entry_price =? 0
  then Binary64.calculate_stop_loss direction entry_price stop_loss
       = Raise ZeroDivisionError
  else exists pct,
         Binary64.calculate_stop_loss direction entry_price stop_loss
         = Return (pct, stop_loss).
Proof.
  unfold Binary64.calculate_stop_loss, Binary64.truediv.
  destruct direction, (entry_price =? 0); cbn; eauto.
Qed.

(** Step 5 raises exactly when [min_margin] or the total asset is zero: the
    leverage it divides by is [3], [150], or a ratio within the two. *)
Lemma binary64_calculate_leverage_cases
    (position_notional risk_amount total_asset margin_usage_ratio : float) :
  if (total_asset * (margin_usage_ratio / 100) =? 0) || (total_asset =? 0)
  then Binary64.calculate_leverage position_notional risk_amount
         total_asset margin_usage_ratio = Raise ZeroDivisionError
  else exists res,
         Binary64.calculate_leverage position_notional risk_amount
           total_asset margin_usage_ratio = Return res.
Proof.
  unfold Binary64.calculate_leverage. cbn zeta.
  destruct (total_asset * (margin_usage_ratio / 100) =? 0) eqn:Hmm; cbn.
  { now rewrite (binary64_truediv_Raise _ _ Hmm). }
  rewrite (binary64_truediv_Return _ _ Hmm). cbn.
  generalize (position_notional / (total_asset * (margin_usage_ratio / 100))).
  intros ratio.
  assert (Hlev : exists leverage,
    (if ratio <=? Binary64.MAX_LEVERAGE
     then mret (if ratio <? Binary64.MIN_LEVERAGE
                then Binary64.MIN_LEVERAGE else ratio)
     else mret Binary64.MAX_LEVERAGE) = Return leverage
    /\ (leverage =? 0) = false).
  { unfold Binary64.MAX_LEVERAGE, Binary64.MIN_LEVERAGE.
    destruct (ratio <=? 150) eqn:Hle; cbn.
    - destruct (ratio <? 3) eqn:Hlt.
      + now exists 3.
      + exists ratio. split; [reflexivity|].
        now apply float_in_range_nonzero.
    - now exists 150. }
  destruct Hlev as (leverage & -> & Hl). cbn.
  rewrite (binary64_truediv_Return _ _ Hl). cbn.
  unfold Binary64.truediv. destruct (total_asset =? 0); cbn; eauto.
Qed.

Section binary64_rr_loop_facts.
Variables (direction : Direction) (entry_price stop_loss_pct : float).
Variables (quantity entry_fee actual_loss_with_fee : float).

(** Each of the two conditional divisions is guarded by [divisor > 0]. *)
Lemma binary64_guarded_truediv_returns (x y : float) :
  exists q, (if 0 <? y then Binary64.truediv x y else mret 0) = Return q.
Proof.
  destruct (0 <? y) eqn:Hy; [|now eexists].
  apply float_positive_nonzero in Hy.
  rewrite (binary64_truediv_Return _ _ Hy). now eexists.
Qed.

Lemma binary64_rr_loop_returns (take_profits : list float) :
  (entry_price =? 0) = false ->
  forall idx results,
    exists results',
      Binary64.rr_loop direction entry_price stop_loss_pct quantity
        entry_fee actual_loss_with_fee idx take_profits results
      = Return results'.
Proof.
  intros He.
  induction take_profits as [|take_profit rest IH]; intros idx results;
    cbn [Binary64.rr_loop]; [now eexists|].
  assert (Hpct : exists profit_pct,
    match direction with
    | LONG =>
        q ← Binary64.truediv (take_profit - entry_price) entry_price;
        mret (q * 100)
    | SHORT =>
        q ← Binary64.truediv (entry_price - take_profit) entry_price;
        mret (q * 100)
    end = Return profit_pct).
  { destruct direction; rewrite (binary64_truediv_Return _ _ He); cbn;
      eauto. }
  destruct Hpct as [profit_pct ->]. cbn.
  destruct (binary64_guarded_truediv_returns profit_pct stop_loss_pct)
    as [rr ->].
  cbn. match goal with
  |- context [Binary64.truediv ?x actual_loss_with_fee] =>
    destruct (binary64_guarded_truediv_returns x actual_loss_with_fee)
      as [ar ->]
  end.
  cbn. apply IH.
Qed.

Lemma binary64_rr_loop_raises (take_profit : float)
    (rest : list float) :
  (entry_price =? 0) = true ->
  forall idx results,
    Binary64.rr_loop direction entry_price stop_loss_pct quantity
      entry_fee actual_loss_with_fee idx (take_profit :: rest) results
    = Raise ZeroDivisionError.
Proof.
  intros He idx results. cbn [Binary64.rr_loop].
  destruct direction; now rewrite (binary64_truediv_Raise _ _ He).
Qed.
End binary64_rr_loop_facts.

(** ** The pipeline *)

(** What the pipeline does, by its four divisors. *)
Lemma binary64_calculate_trading_results_cases
    (inputs : Binary64.TradingInputs) :
  if Binary64.divisors_nonzero inputs
  then exists r, Binary64.calculate_trading_results inputs = Return r
  else Binary64.calculate_trading_results inputs = Raise ZeroDivisionError.
Proof.
  unfold Binary64.divisors_nonzero, Binary64.calculate_trading_results.
  pose proof (binary64_calculate_stop_loss_cases
                (Binary64.direction inputs) (Binary64.entry_price inputs)
                (Binary64.stop_loss inputs)) as Hsl.
  destruct (Binary64.entry_price inputs =? 0) eqn:He; cbn [negb andb].
  { now rewrite Hsl. }
  destruct Hsl as [pct ->]. cbn.
  unfold Binary64.calculate_position_size.
  fold (Binary64.sizing_denominator inputs).
  destruct (Binary64.sizing_denominator inputs =? 0) eqn:Hden;
    cbn [negb andb].
  { now rewrite (binary64_truediv_Raise _ _ Hden). }
  rewrite (binary64_truediv_Return _ _ Hden). cbn.
  match goal with
  |- context [Binary64.calculate_leverage ?n ?ra ?ta ?mur] =>
    pose proof (binary64_calculate_leverage_cases n ra ta mur) as Hlev
  end.
  fold (Binary64.min_margin inputs) in Hlev |- *.
  destruct (Binary64.min_margin inputs =? 0) eqn:Hmm; cbn [negb andb orb].
  { cbn in Hlev. now rewrite Hlev. }
  destruct (Binary64.total_asset inputs =? 0) eqn:Hta; cbn in Hlev |- *.
  { now rewrite Hlev. }
  destruct Hlev as [[[leverage eff] req] ->]. cbn.
  unfold Binary64.calculate_rr_and_profit.
  match goal with
  |- context [Binary64.rr_loop ?d ?e ?p ?q ?f ?a ?i ?t ?m] =>
    destruct (binary64_rr_loop_returns d e p q f a t He i m) as [tpr ->]
  end.
  cbn. eauto.
Qed.

(** A returned [TradingResults] holds the mapping Step 6 returned. *)
Lemma binary64_calculate_trading_results_targets
    (inputs : Binary64.TradingInputs) (r : Binary64.TradingResults) :
  Binary64.calculate_trading_results inputs = Return r ->
  Binary64.calculate_rr_and_profit (Binary64.direction inputs)
    (Binary64.entry_price inputs) (Binary64.stop_loss inputs)
    (Binary64.take_profits inputs) (Binary64.position_notional r)
    (Binary64.position_quantity r) (Binary64.stop_loss_pct r)
  = Return (Binary64.take_profit_results r).
Proof.
  intros H. unfold Binary64.calculate_trading_results in H.
  inv_bind H as sl Hsl. destruct sl as [slp slprice].
  inv_bind H as size Hsize. destruct size as [notional quantity].
  inv_bind H as lev Hlev. destruct lev as [[leverage eff] req].
  inv_bind H as tpr Htpr. injection H as <-. exact Htpr.
Qed.

(** ** Inputs *)

(** The example scenario returns, with the numbers the code prints. *)
Example binary64_example_returns :
  exists r, Binary64.calculate_trading_results Binary64.example_inputs
            = Return r
            /\ Binary64.stop_loss_pct r = 2
            /\ Binary64.actual_loss_amount r = 500
            /\ Binary64.position_notional r = 24047.710657945365
            /\ Binary64.position_quantity r = 0.4809542131589073
            /\ Binary64.position_leverage r = 4.007951776324227
            /\ Binary64.effective_leverage r = 2.4047710657945367
            /\ Binary64.required_margin r = 6000
            /\ Binary64.take_profit_results r
               = {[ 1%nat := {| Binary64.rr_ratio := 1;
                                Binary64.actual_rr := 0.9230473258945749;
                                Binary64.profit := 461.52366294728745 |};
                    2%nat := {| Binary64.rr_ratio := 2;
                                Binary64.actual_rr := 1.8845709888418622;
                                Binary64.profit := 942.2854944209312 |} ]}
            /\ Binary64.structural_issue r = NO_ISSUE
            /\ Binary64.overall_judgment r = NO_ISSUE.
Proof.
  eexists. split; [vm_compute; reflexivity|].
  repeat split; vm_compute; reflexivity.
Qed.

(** A sizing denominator that is not zero as a real number, and rounds to
    zero: the code raises. *)
Example binary64_rounding_stop_raises :
  (Binary64.sizing_denominator Binary64.rounding_stop_inputs =? 0) = true
  /\ Binary64.calculate_trading_results Binary64.rounding_stop_inputs
     = Raise ZeroDivisionError.
Proof.
  split; vm_compute; reflexivity.
Qed.

(** A sizing denominator that is zero on the decimals written, and not zero
    once they are rounded: the code returns. *)
Example binary64_cancelling_stop_returns :
  (Binary64.sizing_denominator Binary64.cancelling_stop_inputs =? 0) = false
  /\ exists r,
       Binary64.calculate_trading_results Binary64.cancelling_stop_inputs
       = Return r.
Proof.
  split; [vm_compute; reflexivity|]. eexists. vm_compute. reflexivity.
Qed.

(** A positive total asset whose [min_margin] underflows to zero: the code
    raises. *)
Example binary64_tiny_asset_raises :
  (0 <? Binary64.total_asset Binary64.tiny_asset_inputs) = true
  /\ (Binary64.min_margin Binary64.tiny_asset_inputs =? 0) = true
  /\ Binary64.calculate_trading_results Binary64.tiny_asset_inputs
     = Raise ZeroDivisionError.
Proof.
  repeat split; vm_compute; reflexivity.
Qed.

(** With no margin to use, and with no total asset and no target, the code
    raises over binary64 as it does in exact arithmetic. *)
Example binary64_zero_margin_raises :
  Binary64.calculate_trading_results Binary64.zero_margin_inputs
  = Raise ZeroDivisionError.
Proof.
  vm_compute. reflexivity.
Qed.

Example binary64_no_target_no_asset_raises :
  Binary64.take_profits Binary64.no_target_no_asset_inputs = []
  /\ Binary64.calculate_trading_results Binary64.no_target_no_asset_inputs
     = Raise ZeroDivisionError.
Proof.
  split; vm_compute; reflexivity.
Qed.

(** ** When the calculation returns *)

(** C3, amended.  The calculation returns a [TradingResults] exactly on the
    inputs none of whose four divisors, each as the code computes it in
    binary64, compares equal to zero: the entry price, the sizing
    denominator, [min_margin] and the total asset.  This holds however
    ill-formed the trade setup is otherwise.  On an input with one of these
    divisors zero the calculation raises [ZeroDivisionError] and returns
    nothing. *)
Theorem calculate_returns_unless_computed_zero_divisor
    (inputs : Binary64.TradingInputs) :
  (if Binary64.divisors_nonzero inputs
   then exists r, Binary64.calculate_trading_results inputs = Return r
   else Binary64.calculate_trading_results inputs
        = Raise ZeroDivisionError)
  /\ ((exists r, Binary64.calculate_trading_results inputs = Return r)
      <-> (Binary64.entry_price inputs =? 0) = false
          /\ (Binary64.sizing_denominator inputs =? 0) = false
          /\ (Binary64.min_margin inputs =? 0) = false
          /\ (Binary64.total_asset inputs =? 0) = false).
Proof.
  pose proof (binary64_calculate_trading_results_cases inputs) as H.
  split; [exact H|].
  unfold Binary64.divisors_nonzero in H.
  destruct (Binary64.entry_price inputs =? 0),
    (Binary64.sizing_denominator inputs =? 0),
    (Binary64.min_margin inputs =? 0),
    (Binary64.total_asset inputs =? 0); cbn in H;
    try (split; [intros [r Hr]; rewrite H in Hr; discriminate
                |intros (? & ? & ? & ?); discriminate]).
  split; [now intros _|intros _; exact H].
Qed.

(** C5, amended.  On an empty [take_profits] Step 6 raises no fault and
    returns the empty mapping, whatever its other arguments.  The whole
    calculation then returns a [TradingResults], with an empty
    [take_profit_results], when none of the divisors of the other steps, as
    the code computes them in binary64, compares equal to zero (entry
    price, sizing denominator, [min_margin], total asset), and raises
    [ZeroDivisionError] otherwise; any result it returns has an empty
    [take_profit_results]. *)
Theorem empty_take_profits_empty_mapping
    (inputs : Binary64.TradingInputs) :
  Binary64.take_profits inputs = [] ->
  (forall notional quantity stop_loss_pct : float,
     Binary64.calculate_rr_and_profit (Binary64.direction inputs)
       (Binary64.entry_price inputs) (Binary64.stop_loss inputs)
       (Binary64.take_profits inputs) notional quantity stop_loss_pct
     = Return ∅)
  /\ (if Binary64.divisors_nonzero inputs
      then exists r, Binary64.calculate_trading_results inputs = Return r
                     /\ Binary64.take_profit_results r = ∅
      else Binary64.calculate_trading_results inputs
           = Raise ZeroDivisionError)
  /\ (forall r, Binary64.calculate_trading_results inputs = Return r ->
                Binary64.take_profit_results r = ∅).
Proof.
  intros Hempty.
  assert (Hstep : forall notional quantity stop_loss_pct : float,
    Binary64.calculate_rr_and_profit (Binary64.direction inputs)
      (Binary64.entry_price inputs) (Binary64.stop_loss inputs)
      (Binary64.take_profits inputs) notional quantity stop_loss_pct
    = Return ∅) by (rewrite Hempty; reflexivity).
  assert (Hret : forall r,
    Binary64.calculate_trading_results inputs = Return r ->
    Binary64.take_profit_results r = ∅).
  { intros r Hr. apply binary64_calculate_trading_results_targets in Hr.
    rewrite Hstep in Hr. now injection Hr. }
  split; [exact Hstep|]. split; [|exact Hret].
  pose proof (binary64_calculate_trading_results_cases inputs) as H.
  destruct (Binary64.divisors_nonzero inputs); [|exact H].
  destruct H as [r Hr]. exists r. split; [exact Hr|]. now apply Hret.
Qed.
End binary64_facts.

Lemma empty_take_profits_empty_mapping_witness :
  exists r,
    Binary64.calculate_trading_results Binary64.no_target_inputs = Return r
    /\ Binary64.take_profit_results r = ∅.
Proof.
  destruct (empty_take_profits_empty_mapping Binary64.no_target_inputs
              eq_refl) as (_ & H & _).
  exact H.
Defined.
